(** * NeoDataSync: the replicated key/value map

    A shallow embedding of [NeoReplicatedData.h] / [NeoReplicatedData.cpp]:
    the type-erased keys ([FRecordKey] over [FInstancedStruct]), the map
    entries, the map operations of [FNeoDataMap] and the component API of
    [UNeoReplicatedDataComponent], followed by the properties the
    specification states about them. *)

From Stdlib Require Import ZArith Lia Bool.
From Stdlib Require Import Strings.String Strings.Byte.
From stdpp Require Import base decidable option list strings.

Local Open Scope Z_scope.

(** ** Engine types the plugin builds on

    The plugin stores its payloads in engine containers.  They are modelled
    here as far as the plugin's code reads them: a reflected struct type
    ([UScriptStruct]) is a descriptor with its size in bytes and its
    reflected properties, an [FInstancedStruct] is a type pointer with the
    instance memory, [FCrc::MemCrc32] is the reflected CRC-32. *)
Module Engine.

(** A reflected property: a field of plain data at a byte offset.  The
    bytes of a struct that belong to no property are padding. *)
Record FProperty : Type := {
  Offset : nat;
  ElementSize : nat
}.

Record UScriptStruct : Type := {
  StructName : string;
  StructureSize : nat;
  Properties : list FProperty
}.

#[export] Instance FProperty_eq_dec : EqDecision FProperty.
Proof. solve_decision. Defined.

#[export] Instance UScriptStruct_eq_dec : EqDecision UScriptStruct.
Proof. solve_decision. Defined.

#[export] Instance byte_eq_dec : EqDecision byte := Byte.byte_eq_dec.

(** The bytes of one property inside an instance. *)
Definition PropertyBytes (p : FProperty) (Memory : list byte) : list byte :=
  take (ElementSize p) (drop (Offset p) Memory).

(** Modelled from the spec: the engine's [UScriptStruct::CompareScriptStruct]
    is not part of the plugin; the specification describes key equality as
    "payload values are equal under the shape's own equality (not raw memory
    comparison)".  The comparison walks the reflected properties and
    compares each one's value; padding is never read. *)
Definition CompareScriptStruct (s : UScriptStruct) (A B : list byte) : bool :=
  forallb (fun p => bool_decide (PropertyBytes p A = PropertyBytes p B))
          (Properties s).

(** [FInstancedStruct]: a null type pointer is the empty (invalid) value. *)
Record FInstancedStruct : Type := {
  ScriptStruct : option UScriptStruct;
  StructMemory : list byte
}.

Definition GetScriptStruct (s : FInstancedStruct) : option UScriptStruct :=
  ScriptStruct s.
Definition GetMemory (s : FInstancedStruct) : list byte := StructMemory s.
Definition IsValid (s : FInstancedStruct) : bool :=
  match ScriptStruct s with Some _ => true | None => false end.

(** [FInstancedStruct::operator==]: same type pointer, and the instances
    compare equal under the type's comparison; two empty values are equal. *)
Definition FInstancedStruct_eq (a b : FInstancedStruct) : bool :=
  if bool_decide (GetScriptStruct a = GetScriptStruct b) then
    match GetScriptStruct a with
    | Some s => CompareScriptStruct s (GetMemory a) (GetMemory b)
    | None => true
    end
  else false.

(** Modelled from the spec: the engine's [FCrc::MemCrc32] is not part of the
    plugin; the specification calls it a "raw memory CRC".  It is the
    reflected CRC-32 (polynomial [0xEDB88320]) of the first [Length] bytes at
    [Data], on 32-bit unsigned values; an instance holds [StructureSize]
    bytes, so nothing past [Data] is read. *)
Definition Crc32Bit (CRC : Z) : Z :=
  if Z.testbit CRC 0
  then Z.lxor (Z.shiftr CRC 1) 0xEDB88320
  else Z.shiftr CRC 1.

Definition Crc32Byte (CRC : Z) (b : byte) : Z :=
  Nat.iter 8 Crc32Bit (Z.lxor CRC (Z.of_N (Byte.to_N b))).

Definition MemCrc32 (Data : list byte) (Length : nat) : Z :=
  Z.lxor (fold_left Crc32Byte (take Length Data) 0xFFFFFFFF) 0xFFFFFFFF.

(** [int32] counters of the fast array serializer wrap around. *)
Definition INDEX_NONE : Z := -1.
Definition int32_incr (x : Z) : Z :=
  if x =? 2147483647 then -2147483648 else x + 1.

End Engine.
Export Engine.

(** ** [FRecordKey] and [FRecordDefinition] *)

Record FRecordKey : Type := {
  KeyData : FInstancedStruct
}.

(** [FRecordKey::operator==] *)
Definition FRecordKey_eq (This Other : FRecordKey) : bool :=
  FInstancedStruct_eq (KeyData This) (KeyData Other).

(** [GetTypeHash(const FRecordKey&)]: the CRC of the raw instance memory,
    over the whole structure size, or 0 for an invalid key. *)
Definition GetTypeHash (Key : FRecordKey) : Z :=
  if IsValid (KeyData Key) then
    match GetScriptStruct (KeyData Key) with
    | Some ScriptStruct =>
        MemCrc32 (GetMemory (KeyData Key)) (StructureSize ScriptStruct)
    | None => 0
    end
  else 0.

Record FRecordDefinition : Type := {
  Payload : FInstancedStruct
}.

(** ** Map entries and the map ([FNeoDataEntry], [FNeoDataMap]) *)

(** [FNeoDataEntry : FFastArraySerializerItem].  The first three fields are
    the base class' replication bookkeeping (the specification's
    [replication_version]); [Key] and [Value] are the plugin's. *)
Record FNeoDataEntry : Type := {
  ReplicationID : Z;
  ReplicationKey : Z;
  MostRecentArrayReplicationKey : Z;
  Key : FRecordKey;
  Value : FRecordDefinition
}.

(** [FNeoDataEntry(const FRecordKey&, const FRecordDefinition&)] *)
Definition FNeoDataEntry_ctor (key : FRecordKey) (value : FRecordDefinition)
  : FNeoDataEntry :=
  {| ReplicationID := INDEX_NONE;
     ReplicationKey := INDEX_NONE;
     MostRecentArrayReplicationKey := INDEX_NONE;
     Key := key;
     Value := value |}.

(** [FNeoDataEntry::operator==] *)
Definition FNeoDataEntry_eq (This Other : FNeoDataEntry) : bool :=
  FRecordKey_eq (Key This) (Key Other).

Definition set_Value (value : FRecordDefinition) (e : FNeoDataEntry)
  : FNeoDataEntry :=
  {| ReplicationID := ReplicationID e;
     ReplicationKey := ReplicationKey e;
     MostRecentArrayReplicationKey := MostRecentArrayReplicationKey e;
     Key := Key e;
     Value := value |}.

(** A [UNeoReplicatedDataComponent*], as an object identity. *)
Definition ObjectPtr : Type := nat.

(** [FNeoDataMap : FFastArraySerializer].  [IDCounter] and
    [ArrayReplicationKey] are the base class' counters; a null [Owner] is
    [None]. *)
Record FNeoDataMap : Type := {
  IDCounter : Z;
  ArrayReplicationKey : Z;
  Items : list FNeoDataEntry;
  Owner : option ObjectPtr
}.

(** [FNeoDataMap() : Owner(nullptr)] *)
Definition FNeoDataMap_ctor : FNeoDataMap :=
  {| IDCounter := 0; ArrayReplicationKey := 0; Items := []; Owner := None |}.

Definition set_Items (items : list FNeoDataEntry) (m : FNeoDataMap)
  : FNeoDataMap :=
  {| IDCounter := IDCounter m;
     ArrayReplicationKey := ArrayReplicationKey m;
     Items := items;
     Owner := Owner m |}.

Definition set_Owner (owner : option ObjectPtr) (m : FNeoDataMap)
  : FNeoDataMap :=
  {| IDCounter := IDCounter m;
     ArrayReplicationKey := ArrayReplicationKey m;
     Items := Items m;
     Owner := owner |}.

(** ** Notifications

    The three multicast delegates of the component.  A broadcast runs the
    bound callbacks synchronously, so each one is recorded with the entries
    the callbacks can read while they run. *)
Inductive Notification : Type :=
| OnKeyAdded (key : FRecordKey) (value : FRecordDefinition)
| OnKeyUpdated (key : FRecordKey) (value : FRecordDefinition)
| OnKeyRemoved (key : FRecordKey).

Record Broadcast : Type := {
  Target : ObjectPtr;
  Event : Notification;
  Seen : list FNeoDataEntry
}.

(** ** Map operations as state transformers with a broadcast log *)

Definition Exec (A : Type) : Type :=
  FNeoDataMap -> A * FNeoDataMap * list Broadcast.

(** The result, the state and the log an operation ends with. *)
Definition result_of {A} (r : A * FNeoDataMap * list Broadcast) : A :=
  fst (fst r).
Definition state_of {A} (r : A * FNeoDataMap * list Broadcast) : FNeoDataMap :=
  snd (fst r).
Definition log_of {A} (r : A * FNeoDataMap * list Broadcast) : list Broadcast :=
  snd r.

Definition ret {A} (a : A) : Exec A := fun m => (a, m, []).

(** Sequencing: [k] runs in the state [c] leaves, the logs are appended. *)
Definition bind {A B} (c : Exec A) (k : A -> Exec B) : Exec B :=
  fun m =>
    let r1 := c m in
    let r2 := k (result_of r1) (state_of r1) in
    (result_of r2, state_of r2, log_of r1 ++ log_of r2).

Declare Scope exec_scope.
Delimit Scope exec_scope with exec.
Notation "x <- c ;; k" := (bind c (fun x => k))
  (at level 100, c at next level, right associativity) : exec_scope.
Notation "c ;; k" := (bind c (fun _ => k))
  (at level 100, right associativity) : exec_scope.
Local Open Scope exec_scope.

Definition get : Exec FNeoDataMap := fun m => (m, m, []).
Definition put (m' : FNeoDataMap) : Exec unit := fun _ => (tt, m', []).
Definition modify_Items (f : list FNeoDataEntry -> list FNeoDataEntry)
  : Exec unit :=
  fun m => (tt, set_Items (f (Items m)) m, []).

(** [UNeoReplicatedDataComponent::NotifyKeyAdded] and its siblings:
    [Broadcast] on the matching delegate. *)
Definition NotifyKeyAdded (This : ObjectPtr) (key : FRecordKey)
    (value : FRecordDefinition) : Exec unit :=
  fun m => (tt, m, [{| Target := This; Event := OnKeyAdded key value;
                       Seen := Items m |}]).

Definition NotifyKeyUpdated (This : ObjectPtr) (key : FRecordKey)
    (value : FRecordDefinition) : Exec unit :=
  fun m => (tt, m, [{| Target := This; Event := OnKeyUpdated key value;
                       Seen := Items m |}]).

Definition NotifyKeyRemoved (This : ObjectPtr) (key : FRecordKey) : Exec unit :=
  fun m => (tt, m, [{| Target := This; Event := OnKeyRemoved key;
                       Seen := Items m |}]).

(** [if (Owner) { Owner->... }] *)
Definition IfOwner (call : ObjectPtr -> Exec unit) : Exec unit :=
  m <- get ;;
  match Owner m with
  | Some owner => call owner
  | None => ret tt
  end.

(** Modelled from the spec: the dirty marking of the engine's
    [FFastArraySerializer] is not part of the plugin; the specification has
    [add_or_update] "bump its replication_version, mark dirty" on an update
    and allocate a fresh version on an insertion.  The definitions from here
    to [MarkItemDirty] follow the serializer's fields: an item gets its
    [ReplicationID] from [IDCounter] on first use and its [ReplicationKey]
    is bumped on every marking; the array's [ArrayReplicationKey] is bumped
    on every marking of an item or of the array.  The serializer's caches
    of derived data are left out.

    [IncrementArrayReplicationKey]: the key skips [INDEX_NONE]. *)
Definition IncrementArrayReplicationKey (k : Z) : Z :=
  let k' := int32_incr k in
  if k' =? INDEX_NONE then int32_incr k' else k'.

(** [FFastArraySerializer::MarkArrayDirty] *)
Definition MarkArrayDirty : Exec unit :=
  fun m =>
    (tt, {| IDCounter := IDCounter m;
            ArrayReplicationKey :=
              IncrementArrayReplicationKey (ArrayReplicationKey m);
            Items := Items m;
            Owner := Owner m |}, []).

(** The item part of [FFastArraySerializer::MarkItemDirty]: allocate the
    item's [ReplicationID] from the counter on first use ([++IDCounter]),
    bump its [ReplicationKey]. *)
Definition DirtyItem (counter : Z) (Item : FNeoDataEntry) : FNeoDataEntry :=
  {| ReplicationID :=
       if bool_decide (ReplicationID Item = INDEX_NONE)
       then int32_incr counter else ReplicationID Item;
     ReplicationKey := int32_incr (ReplicationKey Item);
     MostRecentArrayReplicationKey := MostRecentArrayReplicationKey Item;
     Key := Key Item;
     Value := Value Item |}.

(** The counter part: [IDCounter] moves on when an id was allocated, and
    skips [INDEX_NONE]. *)
Definition DirtyCounter (counter : Z) (Item : FNeoDataEntry) : Z :=
  if bool_decide (ReplicationID Item = INDEX_NONE) then
    let id := int32_incr counter in
    if id =? INDEX_NONE then int32_incr id else id
  else counter.

(** [FFastArraySerializer::MarkItemDirty(Item)], the item given by its index
    in [Items]; it ends with [MarkArrayDirty]. *)
Definition MarkItemDirty (i : nat) : Exec unit :=
  m <- get ;;
  match Items m !! i with
  | None => ret tt
  | Some Item =>
      put {| IDCounter := DirtyCounter (IDCounter m) Item;
             ArrayReplicationKey := ArrayReplicationKey m;
             Items := <[i := DirtyItem (IDCounter m) Item]> (Items m);
             Owner := Owner m |} ;;
      MarkArrayDirty
  end.

(** [TArray::FindByPredicate]: the first element that satisfies [Pred]; the
    returned pointer is modelled as the element's index, null as [None]. *)
Fixpoint FindByPredicate {A} (Pred : A -> bool) (l : list A) : option nat :=
  match l with
  | [] => None
  | x :: l' => if Pred x then Some 0%nat else S <$> FindByPredicate Pred l'
  end.

(** [FNeoDataMap::AddOrUpdate] *)
Definition AddOrUpdate (key : FRecordKey) (value : FRecordDefinition)
  : Exec unit :=
  m <- get ;;
  match FindByPredicate (fun Entry => FRecordKey_eq (Key Entry) key) (Items m) with
  | Some ExistingEntry =>
      (* Update *)
      modify_Items (alter (set_Value value) ExistingEntry) ;;
      MarkItemDirty ExistingEntry ;;
      (* Notify Local *)
      IfOwner (fun owner => NotifyKeyUpdated owner key value)
  | None =>
      (* Add *)
      modify_Items (fun items => items ++ [FNeoDataEntry_ctor key value]) ;;
      MarkItemDirty (length (Items m)) ;;
      (* Notify Local *)
      IfOwner (fun owner => NotifyKeyAdded owner key value)
  end.

(** The loop of [FNeoDataMap::Remove]: the iterator stands at index [It],
    [rest] are the entries from there on.  [It.RemoveCurrent()] is
    [RemoveAt(It)], which keeps the order of the other entries. *)
Fixpoint Remove_loop (key : FRecordKey) (It : nat) (rest : list FNeoDataEntry)
  : Exec unit :=
  match rest with
  | [] => ret tt
  | Entry :: rest' =>
      if FRecordKey_eq (Key Entry) key then
        (* Notify Local before removal *)
        IfOwner (fun owner => NotifyKeyRemoved owner key) ;;
        modify_Items (delete It) ;;
        MarkArrayDirty
      else Remove_loop key (S It) rest'
  end.

(** [FNeoDataMap::Remove] *)
Definition Remove (key : FRecordKey) : Exec unit :=
  m <- get ;;
  Remove_loop key 0 (Items m).

(** [FNeoDataMap::Find]: a pointer to the value of the first entry with the
    key, or null. *)
Definition Find (key : FRecordKey) (m : FNeoDataMap) : option FRecordDefinition :=
  match FindByPredicate (fun Item => FRecordKey_eq (Key Item) key) (Items m) with
  | Some Entry => Value <$> Items m !! Entry
  | None => None
  end.

(** The replication hooks of [FNeoDataEntry]. *)
Definition PreReplicatedRemove (This : FNeoDataEntry) : Exec unit :=
  IfOwner (fun owner => NotifyKeyRemoved owner (Key This)).

Definition PostReplicatedAdd (This : FNeoDataEntry) : Exec unit :=
  IfOwner (fun owner => NotifyKeyAdded owner (Key This) (Value This)).

Definition PostReplicatedChange (This : FNeoDataEntry) : Exec unit :=
  IfOwner (fun owner => NotifyKeyUpdated owner (Key This) (Value This)).

(** ** The component ([UNeoReplicatedDataComponent]) *)

Record UNeoReplicatedDataComponent : Type := {
  DataMap : FNeoDataMap;
  RestrictedKeyType : option UScriptStruct;
  RestrictedValueType : option UScriptStruct
}.

(** The constructor: [DataMap.Owner = this]. *)
Definition UNeoReplicatedDataComponent_ctor (This : ObjectPtr)
  : UNeoReplicatedDataComponent :=
  {| DataMap := set_Owner (Some This) FNeoDataMap_ctor;
     RestrictedKeyType := None;
     RestrictedValueType := None |}.

Definition set_DataMap (m : FNeoDataMap) (c : UNeoReplicatedDataComponent)
  : UNeoReplicatedDataComponent :=
  {| DataMap := m;
     RestrictedKeyType := RestrictedKeyType c;
     RestrictedValueType := RestrictedValueType c |}.

(** The two warnings [SetData] writes to the log: the type found and the
    type the restriction asks for. *)
Inductive LogLine : Type :=
| KeyTypeMismatch (KeyStruct : option UScriptStruct) (Restricted : UScriptStruct)
| ValueTypeMismatch (ValueStruct : option UScriptStruct) (Restricted : UScriptStruct).

(** What a call on the component leaves behind: the component, the
    broadcasts it made, the warnings it logged. *)
Record Outcome : Type := {
  Component : UNeoReplicatedDataComponent;
  Broadcasts : list Broadcast;
  Warnings : list LogLine
}.

Definition on_DataMap (op : Exec unit) (c : UNeoReplicatedDataComponent)
  : Outcome :=
  let r := op (DataMap c) in
  {| Component := set_DataMap (state_of r) c;
     Broadcasts := log_of r;
     Warnings := [] |}.

Definition rejected (c : UNeoReplicatedDataComponent) (w : LogLine) : Outcome :=
  {| Component := c; Broadcasts := []; Warnings := [w] |}.

(** Step 1 of [SetData]: the warning logged when a key restriction is set
    and the key's struct type is another one (or null). *)
Definition ValidateKeyType (key : FRecordKey) (c : UNeoReplicatedDataComponent)
  : option LogLine :=
  match RestrictedKeyType c with
  | Some Restricted =>
      let KeyStruct := GetScriptStruct (KeyData key) in
      if bool_decide (KeyStruct <> Some Restricted)
      then Some (KeyTypeMismatch KeyStruct Restricted)
      else None
  | None => None
  end.

(** Step 2 of [SetData], the same for the value. *)
Definition ValidateValueType (value : FRecordDefinition)
    (c : UNeoReplicatedDataComponent) : option LogLine :=
  match RestrictedValueType c with
  | Some Restricted =>
      let ValueStruct := GetScriptStruct (Payload value) in
      if bool_decide (ValueStruct <> Some Restricted)
      then Some (ValueTypeMismatch ValueStruct Restricted)
      else None
  | None => None
  end.

(** [UNeoReplicatedDataComponent::SetData]: each failed validation logs its
    warning and returns. *)
Definition SetData (key : FRecordKey) (value : FRecordDefinition)
    (c : UNeoReplicatedDataComponent) : Outcome :=
  match ValidateKeyType key c with
  | Some w => rejected c w
  | None =>
      match ValidateValueType value c with
      | Some w => rejected c w
      | None => on_DataMap (AddOrUpdate key value) c
      end
  end.

(** [UNeoReplicatedDataComponent::RemoveData] *)
Definition RemoveData (key : FRecordKey) (c : UNeoReplicatedDataComponent)
  : Outcome :=
  on_DataMap (Remove key) c.

(** [UNeoReplicatedDataComponent::GetData]: the flag and the contents of
    [OutValue] after the call. *)
Definition GetData (key : FRecordKey) (OutValue : FRecordDefinition)
    (c : UNeoReplicatedDataComponent) : bool * FRecordDefinition :=
  match Find key (DataMap c) with
  | Some Found => (true, Found)
  | None => (false, OutValue)
  end.

(** [UNeoReplicatedDataComponent::GetKeys]: a fresh array, one [Add] per
    entry, returned by value. *)
Definition GetKeys (c : UNeoReplicatedDataComponent) : list FRecordKey :=
  fold_left (fun Keys Entry => Keys ++ [Key Entry]) (Items (DataMap c)) [].

(** ** Sample data

    A key struct with padding ([uint8 Kind; int32 Index]: three padding bytes
    after [Kind]) and a value struct of one [int32]. *)
Module Samples.

Definition FSlotKey : UScriptStruct :=
  {| StructName := "FSlotKey"; StructureSize := 8;
     Properties := [ {| Offset := 0; ElementSize := 1 |};
                     {| Offset := 4; ElementSize := 4 |} ] |}.

Definition FIntValue : UScriptStruct :=
  {| StructName := "FIntValue"; StructureSize := 4;
     Properties := [ {| Offset := 0; ElementSize := 4 |} ] |}.

Definition MakeKey (s : UScriptStruct) (Memory : list byte) : FRecordKey :=
  {| KeyData := {| ScriptStruct := Some s; StructMemory := Memory |} |}.

Definition MakeValue (s : UScriptStruct) (Memory : list byte)
  : FRecordDefinition :=
  {| Payload := {| ScriptStruct := Some s; StructMemory := Memory |} |}.

(** [FSlotKey{1, 7}] built in zeroed memory. *)
Definition K1 : FRecordKey :=
  MakeKey FSlotKey [x01; x00; x00; x00; x07; x00; x00; x00]%byte.

(** [FSlotKey{1, 7}] built in memory that was not zeroed first. *)
Definition K1_dirty : FRecordKey :=
  MakeKey FSlotKey [x01; xcc; xcc; xcc; x07; x00; x00; x00]%byte.

(** [FSlotKey{2, 7}] *)
Definition K2 : FRecordKey :=
  MakeKey FSlotKey [x02; x00; x00; x00; x07; x00; x00; x00]%byte.

(** A key of another struct type. *)
Definition K_int : FRecordKey :=
  MakeKey FIntValue [x01; x00; x00; x00]%byte.

Definition V1 : FRecordDefinition :=
  MakeValue FIntValue [x0a; x00; x00; x00]%byte.
Definition V2 : FRecordDefinition :=
  MakeValue FIntValue [x14; x00; x00; x00]%byte.

(** A value of the key's struct type. *)
Definition V_slot : FRecordDefinition :=
  MakeValue FSlotKey [x01; x00; x00; x00; x07; x00; x00; x00]%byte.

Definition Component0 : UNeoReplicatedDataComponent :=
  UNeoReplicatedDataComponent_ctor 1%nat.

(** A component whose keys are restricted to [FSlotKey] and whose values
    are restricted to [FIntValue]. *)
Definition Restricted0 : UNeoReplicatedDataComponent :=
  {| DataMap := DataMap Component0;
     RestrictedKeyType := Some FSlotKey;
     RestrictedValueType := Some FIntValue |}.

(** A map of its own (null [Owner]) that holds [K1 -> V1]. *)
Definition Map1 : FNeoDataMap :=
  state_of (AddOrUpdate K1 V1 FNeoDataMap_ctor).

(** The map of a component (its [Owner]) that holds [K1 -> V1]. *)
Definition Owned1 : FNeoDataMap :=
  DataMap (Component (SetData K1 V1 Component0)).

End Samples.

(** ** Notions the properties are stated with *)

(** Every byte of the struct belongs to a reflected property. *)
Definition NoPadding (s : UScriptStruct) : Prop :=
  forall j, (j < StructureSize s)%nat ->
    exists p, p ∈ Properties s /\
              (Offset p <= j < Offset p + ElementSize p)%nat.

(** The number of entries whose key equals [key]. *)
Fixpoint CountKey (key : FRecordKey) (l : list FNeoDataEntry) : nat :=
  match l with
  | [] => 0%nat
  | Entry :: l' =>
      ((if FRecordKey_eq (Key Entry) key then 1 else 0) + CountKey key l')%nat
  end.

(** The data model's invariant: at most one entry per distinct key. *)
Definition OneEntryPerKey (l : list FNeoDataEntry) : Prop :=
  forall key, (CountKey key l <= 1)%nat.

(** The invariant as a check that runs: no entry's key equals the key of a
    later entry. *)
Fixpoint DistinctKeys (l : list FNeoDataEntry) : bool :=
  match l with
  | [] => true
  | Entry :: l' =>
      negb (existsb (fun Other => FRecordKey_eq (Key Other) (Key Entry)) l')
      && DistinctKeys l'
  end.

(** The plugin's part of an entry. *)
Definition KeyValue (e : FNeoDataEntry) : FRecordKey * FRecordDefinition :=
  (Key e, Value e).

(** The calls that mutate a map. *)
Inductive Call : Type :=
| CallAddOrUpdate (key : FRecordKey) (value : FRecordDefinition)
| CallRemove (key : FRecordKey).

Definition run_call (c : Call) : Exec unit :=
  match c with
  | CallAddOrUpdate key value => AddOrUpdate key value
  | CallRemove key => Remove key
  end.

Fixpoint run_calls (cs : list Call) : Exec unit :=
  match cs with
  | [] => ret tt
  | c :: cs' => run_call c ;; run_calls cs'
  end.

(** The value the calls leave for [key], read off the calls alone: scanning
    from the latest call backwards, the first call on [key] decides; when no
    call is on [key], the value is the one held before ([before]). *)
Fixpoint LatestValueOr (before : option FRecordDefinition) (key : FRecordKey)
    (latest_first : list Call) : option FRecordDefinition :=
  match latest_first with
  | [] => before
  | CallAddOrUpdate key' value :: earlier =>
      if FRecordKey_eq key' key then Some value
      else LatestValueOr before key earlier
  | CallRemove key' :: earlier =>
      if FRecordKey_eq key' key then None
      else LatestValueOr before key earlier
  end.

(** The same on a map that was empty before the calls. *)
Definition LatestValue (key : FRecordKey) (latest_first : list Call)
  : option FRecordDefinition :=
  LatestValueOr None key latest_first.

Definition events (log : list Broadcast) : list Notification :=
  map Event log.

(** ** The array operations, entry by entry

    [AddOrUpdate], [Remove] and [Find] locate an entry by index; the three
    functions below say what they do to the array by recursion on it, and the
    lemmas after them prove that the operations compute exactly that. *)

Fixpoint Upsert (counter : Z) (key : FRecordKey) (value : FRecordDefinition)
    (l : list FNeoDataEntry) : list FNeoDataEntry :=
  match l with
  | [] => [DirtyItem counter (FNeoDataEntry_ctor key value)]
  | Entry :: l' =>
      if FRecordKey_eq (Key Entry) key
      then DirtyItem counter (set_Value value Entry) :: l'
      else Entry :: Upsert counter key value l'
  end.

Fixpoint RemoveFirst (key : FRecordKey) (l : list FNeoDataEntry)
  : list FNeoDataEntry :=
  match l with
  | [] => []
  | Entry :: l' =>
      if FRecordKey_eq (Key Entry) key then l' else Entry :: RemoveFirst key l'
  end.

Fixpoint FindFirst (key : FRecordKey) (l : list FNeoDataEntry)
  : option FRecordDefinition :=
  match l with
  | [] => None
  | Entry :: l' =>
      if FRecordKey_eq (Key Entry) key then Some (Value Entry) else FindFirst key l'
  end.

(** The [IDCounter] after [AddOrUpdate]. *)
Fixpoint UpsertCounter (counter : Z) (key : FRecordKey)
    (value : FRecordDefinition) (l : list FNeoDataEntry) : Z :=
  match l with
  | [] => DirtyCounter counter (FNeoDataEntry_ctor key value)
  | Entry :: l' =>
      if FRecordKey_eq (Key Entry) key
      then DirtyCounter counter (set_Value value Entry)
      else UpsertCounter counter key value l'
  end.

(** The delegate [AddOrUpdate] broadcasts on: [OnKeyUpdated] when the key was
    found, [OnKeyAdded] when it was not. *)
Definition AddOrUpdate_event (key : FRecordKey) (value : FRecordDefinition)
    (l : list FNeoDataEntry) : Notification :=
  match FindByPredicate (fun Entry => FRecordKey_eq (Key Entry) key) l with
  | Some _ => OnKeyUpdated key value
  | None => OnKeyAdded key value
  end.

(** What [Remove] leaves when it finds the key. *)
Definition Removed_state (key : FRecordKey) (m : FNeoDataMap) : FNeoDataMap :=
  {| IDCounter := IDCounter m;
     ArrayReplicationKey := IncrementArrayReplicationKey (ArrayReplicationKey m);
     Items := RemoveFirst key (Items m);
     Owner := Owner m |}.

Definition Removed_log (key : FRecordKey) (m : FNeoDataMap) : list Broadcast :=
  match Owner m with
  | Some owner =>
      [ {| Target := owner; Event := OnKeyRemoved key; Seen := Items m |} ]
  | None => []
  end.

(** An entry with the key is present. *)
Definition HasEntry (key : FRecordKey) (l : list FNeoDataEntry) : Prop :=
  exists Entry, Entry ∈ l /\ FRecordKey_eq (Key Entry) key = true.

(** The same calls made through the component's API. *)
Definition api_call (c : Call) (comp : UNeoReplicatedDataComponent)
  : UNeoReplicatedDataComponent :=
  match c with
  | CallAddOrUpdate key value => Component (SetData key value comp)
  | CallRemove key => Component (RemoveData key comp)
  end.

Definition api_calls (cs : list Call) (comp : UNeoReplicatedDataComponent)
  : UNeoReplicatedDataComponent :=
  fold_left (fun comp c => api_call c comp) cs comp.

(** A caller that takes [GetKeys] first and mutates the component
    afterwards: the array it holds, and the component it ends with. *)
Definition GetKeys_then (cs : list Call) (comp : UNeoReplicatedDataComponent)
  : list FRecordKey * UNeoReplicatedDataComponent :=
  let Keys := GetKeys comp in
  (Keys, api_calls cs comp).

Local Abbreviation HasKey key :=
  (fun Entry : FNeoDataEntry => FRecordKey_eq (Key Entry) key).

(** ** Notions for the component's API *)

(** [FRecordKey()]: the key around an empty instanced struct. *)
Definition FRecordKey_ctor : FRecordKey :=
  {| KeyData := {| ScriptStruct := None; StructMemory := [] |} |}.

(** The type tests of [SetData], as the restrictions decide them: a null
    restriction lets every struct type pass, a set one only its own. *)
Definition TypeAllowed (Restricted : option UScriptStruct)
    (s : FInstancedStruct) : bool :=
  match Restricted with
  | Some R => bool_decide (GetScriptStruct s = Some R)
  | None => true
  end.

Definition KeyAllowed (c : UNeoReplicatedDataComponent) (key : FRecordKey) : bool :=
  TypeAllowed (RestrictedKeyType c) (KeyData key).

Definition ValueAllowed (c : UNeoReplicatedDataComponent)
    (value : FRecordDefinition) : bool :=
  TypeAllowed (RestrictedValueType c) (Payload value).

(** The calls of a sequence that get through to the map: every
    [RemoveData], and the [SetData] calls whose key and value pass. *)
Definition Passes (c : UNeoReplicatedDataComponent) (call : Call) : bool :=
  match call with
  | CallAddOrUpdate key value => KeyAllowed c key && ValueAllowed c value
  | CallRemove _ => true
  end.

(** The key a call is about. *)
Definition CallKey (call : Call) : FRecordKey :=
  match call with
  | CallAddOrUpdate key _ => key
  | CallRemove key => key
  end.

(** A component as it stands before its first call: built by the
    constructor, its two restrictions set in the editor. *)
Definition Placed (This : ObjectPtr) (KeyType ValueType : option UScriptStruct)
  : UNeoReplicatedDataComponent :=
  {| DataMap := DataMap (UNeoReplicatedDataComponent_ctor This);
     RestrictedKeyType := KeyType;
     RestrictedValueType := ValueType |}.

(** What one API call leaves behind, broadcasts included. *)
Definition api_outcome (call : Call) (comp : UNeoReplicatedDataComponent)
  : Outcome :=
  match call with
  | CallAddOrUpdate key value => SetData key value comp
  | CallRemove key => RemoveData key comp
  end.

(** An entry whose key and value are of the struct types the restrictions
    allow. *)
Definition Conforms (KeyType ValueType : option UScriptStruct)
    (e : FNeoDataEntry) : Prop :=
  TypeAllowed KeyType (KeyData (Key e)) = true /\
  TypeAllowed ValueType (Payload (Value e)) = true.

(** ** The struct pairs the header defines ([FNeoDataDefinition_SI]) *)

(** The engine functions the struct's operators call, taken as given:
    [FString::operator==], [GetTypeHash(const FString&)],
    [GetTypeHash(int32)] and [HashCombine]. *)
Record EngineHashing : Type := {
  FString_eq : string -> string -> bool;
  FString_hash : string -> Z;
  int32_hash : Z -> Z;
  HashCombine : Z -> Z -> Z
}.

Record FNeoDataDefinition_SI : Type := {
  StringValue : string;
  IntValue : Z
}.

(** [FNeoDataDefinition_SI::operator==] *)
Definition FNeoDataDefinition_SI_eq (E : EngineHashing)
    (This Other : FNeoDataDefinition_SI) : bool :=
  FString_eq E (StringValue This) (StringValue Other)
  && (IntValue This =? IntValue Other).

(** [GetTypeHash(const FNeoDataDefinition_SI&)] *)
Definition GetTypeHash_SI (E : EngineHashing) (Key : FNeoDataDefinition_SI) : Z :=
  HashCombine E (FString_hash E (StringValue Key)) (int32_hash E (IntValue Key)).

(** ** The typed API ([SetTypedData], [GetTypedData]) *)

(** A USTRUCT as the templates need it ([CStaticStructProvider]): its
    reflected type, and how an instance lies in memory. *)
Class StaticStructProvider (T : Type) : Type := {
  StaticStruct : UScriptStruct;
  ToMemory : T -> list byte;
  FromMemory : list byte -> T
}.

(** [FInstancedStruct::Make(const T&)]: a copy of the struct under its
    reflected type. *)
Definition Make {T} `{StaticStructProvider T} (Struct : T) : FInstancedStruct :=
  {| ScriptStruct := Some StaticStruct; StructMemory := ToMemory Struct |}.

(** [FInstancedStruct::GetPtr<T>()]: the instance read as a [T] when its type
    is [T]'s, null otherwise.  Struct types are flat here (no struct derives
    from another), so "is a child of" is "is". *)
Definition GetPtr {T} `{StaticStructProvider T} (s : FInstancedStruct) : option T :=
  match GetScriptStruct s with
  | Some Type_ =>
      if bool_decide (Type_ = StaticStruct) then Some (FromMemory (GetMemory s))
      else None
  | None => None
  end.

(** [FRecordDefinition()]: the definition around an empty payload. *)
Definition FRecordDefinition_ctor : FRecordDefinition :=
  {| Payload := {| ScriptStruct := None; StructMemory := [] |} |}.

(** [UNeoReplicatedDataComponent::SetTypedData<KeyT, ValueT>] *)
Definition SetTypedData {KeyT ValueT} `{StaticStructProvider KeyT}
    `{StaticStructProvider ValueT} (InKey : KeyT) (InValue : ValueT)
    (c : UNeoReplicatedDataComponent) : Outcome :=
  let WrappedKey := {| KeyData := Make InKey |} in
  let WrappedValue := {| Payload := Make InValue |} in
  SetData WrappedKey WrappedValue c.

(** [UNeoReplicatedDataComponent::GetTypedData<KeyT, ValueT>]: the flag and
    the contents of [OutValue] after the call. *)
Definition GetTypedData {KeyT ValueT} `{StaticStructProvider KeyT}
    `{StaticStructProvider ValueT} (InKey : KeyT) (OutValue : ValueT)
    (c : UNeoReplicatedDataComponent) : bool * ValueT :=
  let WrappedKey := {| KeyData := Make InKey |} in
  let OutDef := FRecordDefinition_ctor in
  match GetData WrappedKey OutDef c with
  | (true, OutDef') =>
      match GetPtr (T := ValueT) (Payload OutDef') with
      | Some Ptr => (true, Ptr)
      | None => (false, OutValue)
      end
  | (false, _) => (false, OutValue)
  end.

(** Sample USTRUCTs for the typed API: a key of one byte, a value of two
    bytes, a value of one. *)
Module TypedSamples.

Record FByteKey : Type := { Code : byte }.
Record FPairValue : Type := { Lo : byte; Hi : byte }.
Record FFlagValue : Type := { Flag : byte }.

#[export] Instance FByteKey_struct : StaticStructProvider FByteKey := {|
  StaticStruct := {| StructName := "FByteKey"; StructureSize := 1;
                     Properties := [ {| Offset := 0; ElementSize := 1 |} ] |};
  ToMemory k := [Code k];
  FromMemory m := {| Code := nth 0 m x00 |}
|}.

#[export] Instance FPairValue_struct : StaticStructProvider FPairValue := {|
  StaticStruct := {| StructName := "FPairValue"; StructureSize := 2;
                     Properties := [ {| Offset := 0; ElementSize := 1 |};
                                     {| Offset := 1; ElementSize := 1 |} ] |};
  ToMemory v := [Lo v; Hi v];
  FromMemory m := {| Lo := nth 0 m x00; Hi := nth 1 m x00 |}
|}.

#[export] Instance FFlagValue_struct : StaticStructProvider FFlagValue := {|
  StaticStruct := {| StructName := "FFlagValue"; StructureSize := 1;
                     Properties := [ {| Offset := 0; ElementSize := 1 |} ] |};
  ToMemory v := [Flag v];
  FromMemory m := {| Flag := nth 0 m x00 |}
|}.

(** Sample engine functions: strings compared and hashed without regard to
    case, as [FString] does. *)
Definition lower (a : Ascii.ascii) : Ascii.ascii :=
  let n := Ascii.nat_of_ascii a in
  if (65 <=? n)%nat && (n <=? 90)%nat then Ascii.ascii_of_nat (n + 32) else a.

Fixpoint lower_string (s : string) : string :=
  match s with
  | EmptyString => EmptyString
  | String a s' => String (lower a) (lower_string s')
  end.

Fixpoint sum_string (s : string) : Z :=
  match s with
  | EmptyString => 0
  | String a s' => Z.of_nat (Ascii.nat_of_ascii a) + 31 * sum_string s'
  end.

Definition SampleHashing : EngineHashing :=
  {| FString_eq s t := String.eqb (lower_string s) (lower_string t);
     FString_hash s := sum_string (lower_string s) mod 4294967296;
     int32_hash n := n mod 4294967296;
     HashCombine a b := Z.lxor a (b + 2654435769) mod 4294967296 |}.

End TypedSamples.

(** * Properties *)

Example MemCrc32_check_value :
  MemCrc32 [x31; x32; x33; x34; x35; x36; x37; x38; x39]%byte 9 = 0xCBF43926.
Proof. vm_compute. reflexivity. Qed.

(** ** Key equality is an equivalence *)

Section KeyEquality.

Lemma CompareScriptStruct_refl s A : CompareScriptStruct s A A = true.
Proof.
  unfold CompareScriptStruct. apply forallb_forall. intros p _.
  apply bool_decide_eq_true. reflexivity.
Qed.

Lemma CompareScriptStruct_sym s A B :
  CompareScriptStruct s A B = true -> CompareScriptStruct s B A = true.
Proof.
  unfold CompareScriptStruct. rewrite !forallb_forall. intros H p Hp.
  specialize (H p Hp). apply bool_decide_eq_true in H.
  apply bool_decide_eq_true. congruence.
Qed.

Lemma CompareScriptStruct_trans s A B C :
  CompareScriptStruct s A B = true -> CompareScriptStruct s B C = true ->
  CompareScriptStruct s A C = true.
Proof.
  unfold CompareScriptStruct. rewrite !forallb_forall. intros H1 H2 p Hp.
  specialize (H1 p Hp). specialize (H2 p Hp).
  apply bool_decide_eq_true in H1. apply bool_decide_eq_true in H2.
  apply bool_decide_eq_true. congruence.
Qed.

Lemma FInstancedStruct_eq_true a b :
  FInstancedStruct_eq a b = true <->
  GetScriptStruct a = GetScriptStruct b /\
  match GetScriptStruct a with
  | Some s => CompareScriptStruct s (GetMemory a) (GetMemory b) = true
  | None => True
  end.
Proof.
  unfold FInstancedStruct_eq. case_bool_decide as Hs.
  - destruct (GetScriptStruct a); intuition.
  - split; [discriminate | intros [? _]; contradiction].
Qed.

Lemma FRecordKey_eq_refl a : FRecordKey_eq a a = true.
Proof.
  apply FInstancedStruct_eq_true. split; [reflexivity |].
  destruct (GetScriptStruct (KeyData a)); [apply CompareScriptStruct_refl | exact I].
Qed.

Lemma FRecordKey_eq_sym_true a b :
  FRecordKey_eq a b = true -> FRecordKey_eq b a = true.
Proof.
  unfold FRecordKey_eq. rewrite !FInstancedStruct_eq_true. intros [Hs Hc].
  split; [congruence |]. rewrite <- Hs.
  destruct (GetScriptStruct (KeyData a)); [by apply CompareScriptStruct_sym | exact I].
Qed.

Lemma FRecordKey_eq_trans a b c :
  FRecordKey_eq a b = true -> FRecordKey_eq b c = true ->
  FRecordKey_eq a c = true.
Proof.
  unfold FRecordKey_eq. rewrite !FInstancedStruct_eq_true.
  intros [Hs1 Hc1] [Hs2 Hc2]. split; [congruence |]. rewrite <- Hs1 in Hc2.
  destruct (GetScriptStruct (KeyData a)); [by eapply CompareScriptStruct_trans | exact I].
Qed.

Lemma FRecordKey_eq_sym a b : FRecordKey_eq a b = FRecordKey_eq b a.
Proof.
  destruct (FRecordKey_eq a b) eqn:Hab, (FRecordKey_eq b a) eqn:Hba; try reflexivity.
  - apply FRecordKey_eq_sym_true in Hab. congruence.
  - apply FRecordKey_eq_sym_true in Hba. congruence.
Qed.

(** Equal keys select the same entries. *)
Lemma FRecordKey_eq_congr_r a b k :
  FRecordKey_eq a b = true -> FRecordKey_eq k a = FRecordKey_eq k b.
Proof.
  intros Hab.
  destruct (FRecordKey_eq k a) eqn:Hka, (FRecordKey_eq k b) eqn:Hkb; try reflexivity.
  - rewrite (FRecordKey_eq_trans _ _ _ Hka Hab) in Hkb. discriminate.
  - apply FRecordKey_eq_sym_true in Hab.
    rewrite (FRecordKey_eq_trans _ _ _ Hkb Hab) in Hka. discriminate.
Qed.

Lemma FRecordKey_eq_congr_l a b k :
  FRecordKey_eq a b = true -> FRecordKey_eq a k = FRecordKey_eq b k.
Proof.
  intros Hab. rewrite (FRecordKey_eq_sym a k), (FRecordKey_eq_sym b k).
  by apply FRecordKey_eq_congr_r.
Qed.

End KeyEquality.

Section ArrayLemmas.

Implicit Types (l : list FNeoDataEntry) (key : FRecordKey)
  (value : FRecordDefinition) (i : nat).

Lemma FindByPredicate_Some_lookup {A} (p : A -> bool) (l : list A) i :
  FindByPredicate p l = Some i -> exists x, l !! i = Some x /\ p x = true.
Proof.
  revert i. induction l as [|x l IH]; intros i; simpl; [discriminate |].
  destruct (p x) eqn:Hp.
  - intros [= <-]. eauto.
  - destruct (FindByPredicate p l) as [j|]; simpl; [|discriminate].
    intros [= <-]. apply IH. reflexivity.
Qed.

Lemma FindByPredicate_Some_Upsert counter key value l i :
  FindByPredicate (HasKey key) l = Some i ->
  exists e, l !! i = Some e /\ FRecordKey_eq (Key e) key = true /\
    Upsert counter key value l = <[i := DirtyItem counter (set_Value value e)]> l.
Proof.
  revert i. induction l as [|x l IH]; intros i; simpl; [discriminate |].
  destruct (FRecordKey_eq (Key x) key) eqn:Hx.
  - intros [= <-]. exists x. auto.
  - destruct (FindByPredicate _ l) as [j|]; simpl; [|discriminate].
    intros [= <-]. destruct (IH j eq_refl) as (e & He & Hk & Hu).
    exists e. simpl. rewrite Hu. auto.
Qed.

Lemma FindByPredicate_None_Upsert counter key value l :
  FindByPredicate (HasKey key) l = None ->
  Upsert counter key value l = l ++ [DirtyItem counter (FNeoDataEntry_ctor key value)].
Proof.
  induction l as [|x l IH]; simpl; [reflexivity |].
  destruct (FRecordKey_eq (Key x) key); [discriminate |].
  destruct (FindByPredicate _ l); simpl; [discriminate |].
  intros _. rewrite IH; reflexivity.
Qed.

Lemma FindByPredicate_Some_RemoveFirst key l i :
  FindByPredicate (HasKey key) l = Some i -> RemoveFirst key l = delete i l.
Proof.
  revert i. induction l as [|x l IH]; intros i; simpl; [discriminate |].
  destruct (FRecordKey_eq (Key x) key).
  - intros [= <-]. reflexivity.
  - destruct (FindByPredicate _ l) as [j|]; simpl; [|discriminate].
    intros [= <-]. simpl. rewrite (IH j eq_refl). reflexivity.
Qed.

Lemma FindByPredicate_None_RemoveFirst key l :
  FindByPredicate (HasKey key) l = None -> RemoveFirst key l = l.
Proof.
  induction l as [|x l IH]; simpl; [reflexivity |].
  destruct (FRecordKey_eq (Key x) key); [discriminate |].
  destruct (FindByPredicate _ l); simpl; [discriminate |].
  intros _. rewrite IH; reflexivity.
Qed.

Lemma FindByPredicate_FindFirst key l :
  FindFirst key l =
  match FindByPredicate (HasKey key) l with
  | Some i => Value <$> l !! i
  | None => None
  end.
Proof.
  induction l as [|x l IH]; simpl; [reflexivity |].
  destruct (FRecordKey_eq (Key x) key); [reflexivity |].
  rewrite IH. destruct (FindByPredicate _ l); reflexivity.
Qed.

Lemma FindByPredicate_CountKey key l :
  FindByPredicate (HasKey key) l = None <-> CountKey key l = 0%nat.
Proof.
  induction l as [|x l IH]; simpl; [tauto |].
  destruct (FRecordKey_eq (Key x) key); simpl.
  - split; discriminate.
  - rewrite <- IH. destruct (FindByPredicate _ l); simpl; split; congruence.
Qed.

Lemma insert_alter_same {A} (f : A -> A) (l : list A) i y :
  <[i := y]> (alter f i l) = <[i := y]> l.
Proof.
  revert i. induction l as [|x l IH]; intros [|i]; simpl; try reflexivity.
  f_equal. apply IH.
Qed.

Lemma insert_at_end {A} (l : list A) (x y : A) :
  <[length l := y]> (l ++ [x]) = l ++ [y].
Proof. induction l as [|z l IH]; simpl; [reflexivity | f_equal; exact IH]. Qed.

Lemma lookup_at_end {A} (l : list A) (x : A) : (l ++ [x]) !! length l = Some x.
Proof. induction l as [|z l IH]; simpl; [reflexivity | exact IH]. Qed.

End ArrayLemmas.

(** ** What the map operations compute *)

Section MapOperations.

Implicit Types (m : FNeoDataMap) (key : FRecordKey) (value : FRecordDefinition).

Lemma FindByPredicate_Some_UpsertCounter counter key value l i e :
  FindByPredicate (HasKey key) l = Some i -> l !! i = Some e ->
  UpsertCounter counter key value l = DirtyCounter counter (set_Value value e).
Proof.
  revert i. induction l as [|x l IH]; intros i; simpl; [discriminate |].
  destruct (FRecordKey_eq (Key x) key).
  - intros [= <-] [= <-]. reflexivity.
  - destruct (FindByPredicate _ l) as [j|]; simpl; [|discriminate].
    intros [= <-] He. exact (IH j eq_refl He).
Qed.

Lemma FindByPredicate_None_UpsertCounter counter key value l :
  FindByPredicate (HasKey key) l = None ->
  UpsertCounter counter key value l
    = DirtyCounter counter (FNeoDataEntry_ctor key value).
Proof.
  induction l as [|x l IH]; simpl; [reflexivity |].
  destruct (FRecordKey_eq (Key x) key); [discriminate |].
  destruct (FindByPredicate _ l); simpl; [discriminate | auto].
Qed.

(** [AddOrUpdate] in one step: the state it leaves and its broadcast. *)
Lemma AddOrUpdate_run key value m :
  AddOrUpdate key value m =
  (tt,
   {| IDCounter := UpsertCounter (IDCounter m) key value (Items m);
      ArrayReplicationKey := IncrementArrayReplicationKey (ArrayReplicationKey m);
      Items := Upsert (IDCounter m) key value (Items m);
      Owner := Owner m |},
   match Owner m with
   | Some owner =>
       [ {| Target := owner;
            Event := AddOrUpdate_event key value (Items m);
            Seen := Upsert (IDCounter m) key value (Items m) |} ]
   | None => []
   end).
Proof.
  unfold AddOrUpdate_event.
  cbv [AddOrUpdate bind get result_of state_of log_of fst snd].
  destruct (FindByPredicate (HasKey key) (Items m)) as [i|] eqn:Hfind.
  - destruct (FindByPredicate_Some_Upsert (IDCounter m) key value _ _ Hfind)
      as (e & He & _ & ->).
    rewrite (FindByPredicate_Some_UpsertCounter _ _ value _ _ _ Hfind He).
    cbv [modify_Items MarkItemDirty MarkArrayDirty put IfOwner bind get
           result_of state_of log_of fst snd].
    simpl. rewrite list_lookup_alter_eq, He. simpl.
    rewrite insert_alter_same.
    destruct (Owner m); reflexivity.
  - rewrite (FindByPredicate_None_Upsert (IDCounter m) key value _ Hfind).
    rewrite (FindByPredicate_None_UpsertCounter _ _ value _ Hfind).
    cbv [modify_Items MarkItemDirty MarkArrayDirty put IfOwner bind get
           result_of state_of log_of fst snd].
    simpl. rewrite lookup_at_end. simpl. rewrite insert_at_end.
    destruct (Owner m); reflexivity.
Qed.

Lemma FindByPredicate_app_found {A} (p : A -> bool) (before : list A) x rest :
  FindByPredicate p before = None -> p x = true ->
  FindByPredicate p (before ++ x :: rest) = Some (length before).
Proof.
  intros Hnone Hx. induction before as [|b before IH]; simpl.
  - rewrite Hx. reflexivity.
  - simpl in Hnone. destruct (p b); [discriminate |].
    destruct (FindByPredicate p before); [discriminate |].
    rewrite IH; reflexivity.
Qed.

Lemma FindByPredicate_app_missed {A} (p : A -> bool) (before : list A) x :
  FindByPredicate p before = None -> p x = false ->
  FindByPredicate p (before ++ [x]) = None.
Proof.
  intros Hnone Hx. induction before as [|b before IH]; simpl.
  - rewrite Hx. reflexivity.
  - simpl in Hnone. destruct (p b); [discriminate |].
    destruct (FindByPredicate p before); [discriminate |].
    rewrite IH; reflexivity.
Qed.

Lemma Remove_loop_run key m (before rest : list FNeoDataEntry) :
  Items m = before ++ rest ->
  FindByPredicate (HasKey key) before = None ->
  Remove_loop key (length before) rest m =
  match FindByPredicate (HasKey key) (Items m) with
  | Some _ => (tt, Removed_state key m, Removed_log key m)
  | None => (tt, m, [])
  end.
Proof.
  revert before. induction rest as [|x rest IH]; intros before Hitems Hnone.
  - rewrite app_nil_r in Hitems. subst before. rewrite Hnone. reflexivity.
  - simpl. destruct (FRecordKey_eq (Key x) key) eqn:Hx.
    + assert (Hfind : FindByPredicate (HasKey key) (Items m) = Some (length before)).
      { rewrite Hitems. by apply FindByPredicate_app_found. }
      unfold Removed_state, Removed_log.
      rewrite (FindByPredicate_Some_RemoveFirst _ _ _ Hfind), Hfind.
      cbv [modify_Items IfOwner MarkArrayDirty bind get result_of state_of
             log_of fst snd].
      destruct (Owner m) eqn:Hown; simpl; rewrite ?Hown; reflexivity.
    + specialize (IH (before ++ [x])).
      rewrite length_app in IH. simpl in IH.
      replace (length before + 1)%nat with (S (length before)) in IH by lia.
      apply IH.
      * rewrite <- app_assoc. exact Hitems.
      * by apply FindByPredicate_app_missed.
Qed.

(** [Remove] in one step. *)
Lemma Remove_run key m :
  Remove key m =
  match FindByPredicate (HasKey key) (Items m) with
  | Some _ => (tt, Removed_state key m, Removed_log key m)
  | None => (tt, m, [])
  end.
Proof.
  pose proof (Remove_loop_run key m [] (Items m) eq_refl eq_refl) as H.
  simpl in H. cbv [Remove bind get result_of state_of log_of fst snd].
  rewrite H. destruct (FindByPredicate _ (Items m)); reflexivity.
Qed.

Lemma Find_FindFirst key m : Find key m = FindFirst key (Items m).
Proof. unfold Find. symmetry. apply FindByPredicate_FindFirst. Qed.

End MapOperations.

(** ** Counting and finding entries after an insertion or a removal *)

Section StoreLemmas.

Implicit Types (l : list FNeoDataEntry) (key : FRecordKey)
  (value : FRecordDefinition).

Lemma CountKey_congr key key' l :
  FRecordKey_eq key key' = true -> CountKey key l = CountKey key' l.
Proof.
  intros Heq. induction l as [|x l IH]; simpl; [reflexivity |].
  rewrite (FRecordKey_eq_congr_r _ _ (Key x) Heq), IH. reflexivity.
Qed.

Lemma CountKey_app key l l' :
  CountKey key (l ++ l') = (CountKey key l + CountKey key l')%nat.
Proof. induction l as [|x l IH]; simpl; [reflexivity | rewrite IH; lia]. Qed.

Lemma HasEntry_CountKey key l : HasEntry key l <-> CountKey key l <> 0%nat.
Proof.
  unfold HasEntry. induction l as [|x l IH]; simpl.
  - split; [intros (e & He & _); inversion He | congruence].
  - destruct (FRecordKey_eq (Key x) key) eqn:Hx; simpl.
    + split; [lia | intros _; exists x; split; [left | exact Hx]].
    + rewrite <- IH. split.
      * intros (e & He & Hk). apply elem_of_cons in He as [-> | He]; [congruence |].
        eauto.
      * intros (e & He & Hk). exists e. split; [by right | exact Hk].
Qed.

Lemma HasEntry_FindByPredicate key l :
  HasEntry key l <-> FindByPredicate (HasKey key) l <> None.
Proof. rewrite HasEntry_CountKey, FindByPredicate_CountKey. reflexivity. Qed.

Lemma FindFirst_None key l : FindFirst key l = None <-> CountKey key l = 0%nat.
Proof.
  induction l as [|x l IH]; simpl; [tauto |].
  destruct (FRecordKey_eq (Key x) key); simpl; [split; discriminate | exact IH].
Qed.

Lemma OneEntryPerKey_tail x l : OneEntryPerKey (x :: l) -> OneEntryPerKey l.
Proof. intros H key. specialize (H key). simpl in H. lia. Qed.

Lemma OneEntryPerKey_head x l key :
  OneEntryPerKey (x :: l) -> FRecordKey_eq (Key x) key = true ->
  CountKey key l = 0%nat.
Proof. intros H Hx. specialize (H key). simpl in H. rewrite Hx in H. lia. Qed.

Lemma existsb_CountKey key l :
  existsb (HasKey key) l = false <-> CountKey key l = 0%nat.
Proof.
  induction l as [|x l IH]; simpl; [tauto |].
  destruct (FRecordKey_eq (Key x) key); simpl; [split; discriminate | exact IH].
Qed.

Lemma DistinctKeys_spec l : DistinctKeys l = true <-> OneEntryPerKey l.
Proof.
  induction l as [|x l IH]; simpl.
  - split; [intros _ key; simpl; lia | reflexivity].
  - rewrite andb_true_iff, negb_true_iff, existsb_CountKey, IH. split.
    + intros [Hx Hl] key. simpl. specialize (Hl key).
      destruct (FRecordKey_eq (Key x) key) eqn:Hk; [|lia].
      rewrite <- (CountKey_congr _ _ l Hk), Hx. lia.
    + intros Hone. split; [|by apply (OneEntryPerKey_tail x)].
      apply (OneEntryPerKey_head x); [exact Hone | apply FRecordKey_eq_refl].
Qed.

#[export] Instance OneEntryPerKey_dec l : Decision (OneEntryPerKey l).
Proof.
  refine (cast_if (decide (DistinctKeys l = true)));
    [by apply DistinctKeys_spec | by rewrite <- DistinctKeys_spec].
Defined.

(** Insertion adds one entry for the key exactly when there was none. *)
Lemma CountKey_Upsert counter key value key' l :
  CountKey key' (Upsert counter key value l) =
  (CountKey key' l +
   match CountKey key l with
   | O => if FRecordKey_eq key key' then 1 else 0
   | S _ => 0
   end)%nat.
Proof.
  induction l as [|x l IH]; simpl; [lia |].
  destruct (FRecordKey_eq (Key x) key) eqn:Hx; simpl; [lia |].
  rewrite IH. lia.
Qed.

Lemma OneEntryPerKey_Upsert counter key value l :
  OneEntryPerKey l -> OneEntryPerKey (Upsert counter key value l).
Proof.
  intros H key'. rewrite CountKey_Upsert. specialize (H key').
  destruct (CountKey key l) eqn:Hc; [|lia].
  destruct (FRecordKey_eq key key') eqn:Hk; [|lia].
  rewrite <- (CountKey_congr _ _ l Hk), Hc. lia.
Qed.

Lemma CountKey_RemoveFirst_le key key' l :
  (CountKey key' (RemoveFirst key l) <= CountKey key' l)%nat.
Proof.
  induction l as [|x l IH]; simpl; [lia |].
  destruct (FRecordKey_eq (Key x) key); simpl; lia.
Qed.

Lemma CountKey_RemoveFirst key l :
  CountKey key (RemoveFirst key l) = Nat.pred (CountKey key l).
Proof.
  induction l as [|x l IH]; simpl; [reflexivity |].
  destruct (FRecordKey_eq (Key x) key) eqn:Hx; simpl; [reflexivity |].
  rewrite Hx. simpl. exact IH.
Qed.

Lemma OneEntryPerKey_RemoveFirst key l :
  OneEntryPerKey l -> OneEntryPerKey (RemoveFirst key l).
Proof.
  intros H key'. specialize (H key').
  pose proof (CountKey_RemoveFirst_le key key' l). lia.
Qed.

(** The value found after an insertion. *)
Lemma FindFirst_Upsert counter key value key' l :
  FindFirst key' (Upsert counter key value l) =
  if FRecordKey_eq key key' then Some value else FindFirst key' l.
Proof.
  induction l as [|x l IH]; simpl; [reflexivity |].
  destruct (FRecordKey_eq (Key x) key) eqn:Hx; simpl.
  - rewrite (FRecordKey_eq_congr_l _ _ key' Hx).
    destruct (FRecordKey_eq key key'); reflexivity.
  - rewrite IH. destruct (FRecordKey_eq key key') eqn:Hk; [|reflexivity].
    rewrite (FRecordKey_eq_congr_r _ _ (Key x) Hk) in Hx. rewrite Hx. reflexivity.
Qed.

(** The value found after a removal, in an array with one entry per key. *)
Lemma FindFirst_RemoveFirst key key' l :
  OneEntryPerKey l ->
  FindFirst key' (RemoveFirst key l) =
  if FRecordKey_eq key key' then None else FindFirst key' l.
Proof.
  induction l as [|x l IH]; intros Hone; simpl.
  - destruct (FRecordKey_eq key key'); reflexivity.
  - destruct (FRecordKey_eq (Key x) key) eqn:Hx; simpl.
    + rewrite (FRecordKey_eq_congr_l _ _ key' Hx).
      destruct (FRecordKey_eq key key') eqn:Hk; [|reflexivity].
      apply FindFirst_None. apply (OneEntryPerKey_head x); [exact Hone |].
      by rewrite (FRecordKey_eq_congr_l _ _ key' Hx).
    + rewrite (IH (OneEntryPerKey_tail _ _ Hone)).
      destruct (FRecordKey_eq key key') eqn:Hk; [|reflexivity].
      rewrite (FRecordKey_eq_congr_r _ _ (Key x) Hk) in Hx. rewrite Hx. reflexivity.
Qed.

End StoreLemmas.

(** ** Hashing of keys *)

Section Hashing.

(** The hash reads nothing but the struct type's size and the raw bytes. *)
Lemma GetTypeHash_raw_memory (s : UScriptStruct) (A B : list byte) :
  take (StructureSize s) A = take (StructureSize s) B ->
  GetTypeHash (Samples.MakeKey s A) = GetTypeHash (Samples.MakeKey s B).
Proof. intros H. unfold GetTypeHash, MemCrc32. simpl. rewrite H. reflexivity. Qed.

Lemma PropertyBytes_lookup (p : FProperty) (Memory : list byte) (j : nat) :
  (Offset p <= j < Offset p + ElementSize p)%nat ->
  PropertyBytes p Memory !! (j - Offset p)%nat = Memory !! j.
Proof.
  intros Hj. unfold PropertyBytes.
  rewrite lookup_take_lt by lia. rewrite lookup_drop. f_equal. lia.
Qed.

(** For struct types without padding the hash does agree with equality. *)
Lemma GetTypeHash_agrees_without_padding (s : UScriptStruct) (A B : list byte) :
  NoPadding s ->
  FRecordKey_eq (Samples.MakeKey s A) (Samples.MakeKey s B) = true ->
  GetTypeHash (Samples.MakeKey s A) = GetTypeHash (Samples.MakeKey s B).
Proof.
  intros Hcover Heq. apply GetTypeHash_raw_memory.
  apply FInstancedStruct_eq_true in Heq as [_ Hcmp]. simpl in Hcmp.
  unfold CompareScriptStruct in Hcmp. rewrite forallb_forall in Hcmp.
  apply list_eq. intros j.
  destruct (decide (j < StructureSize s)%nat) as [Hj|Hj].
  - rewrite !lookup_take_lt by exact Hj.
    destruct (Hcover j Hj) as (p & Hp & Hrange).
    apply list_elem_of_In in Hp. specialize (Hcmp p Hp).
    apply bool_decide_eq_true in Hcmp.
    rewrite <- (PropertyBytes_lookup p A j Hrange),
            <- (PropertyBytes_lookup p B j Hrange), Hcmp.
    reflexivity.
  - rewrite !lookup_take_ge by lia. reflexivity.
Qed.

(** C1: equal keys must hash equally, the hash being taken over the logical
    field values and never over raw memory.  [GetTypeHash] takes the CRC of
    the raw instance memory, padding included: the two keys below are of one
    struct type and hold the same value in every field ([Kind = 1],
    [Index = 7]); they differ in padding bytes only.  [operator==] says they
    are equal, and their hashes differ. *)
Theorem GetTypeHash_differs_on_equal_keys :
  (forall p, p ∈ Properties Samples.FSlotKey ->
     PropertyBytes p (GetMemory (KeyData Samples.K1))
     = PropertyBytes p (GetMemory (KeyData Samples.K1_dirty))) /\
  FRecordKey_eq Samples.K1 Samples.K1_dirty = true /\
  GetTypeHash Samples.K1 = 878700366 /\
  GetTypeHash Samples.K1_dirty = 1965935012 /\
  (GetTypeHash Samples.K1 =? GetTypeHash Samples.K1_dirty) = false.
Proof.
  split.
  - intros p Hp. simpl in Hp.
    repeat (apply elem_of_cons in Hp as [-> | Hp]; [reflexivity |]).
    inversion Hp.
  - vm_compute. repeat split; reflexivity.
Qed.

End Hashing.

(** ** Schema enforcement *)

Section Schema.

Import Samples.

Lemma GetKeys_map c : GetKeys c = map Key (Items (DataMap c)).
Proof.
  unfold GetKeys.
  enough (forall l acc, fold_left (fun Keys Entry => Keys ++ [Key Entry]) l acc
                        = acc ++ map Key l) as H by apply H.
  induction l as [|x l IH]; intros acc; simpl.
  - by rewrite app_nil_r.
  - rewrite IH, <- app_assoc. reflexivity.
Qed.

(** C2: when a key or value restriction is set and the call's key or value
    is of another struct type, [SetData] leaves the component as it was (so
    [GetKeys] and every [Find] answer as before) and broadcasts nothing. *)
Theorem SetData_rejected_changes_nothing
    (key : FRecordKey) (value : FRecordDefinition)
    (c : UNeoReplicatedDataComponent) :
  (exists S, RestrictedKeyType c = Some S /\
             GetScriptStruct (KeyData key) <> Some S) \/
  (exists S, RestrictedValueType c = Some S /\
             GetScriptStruct (Payload value) <> Some S) ->
  Component (SetData key value c) = c /\
  Broadcasts (SetData key value c) = [] /\
  GetKeys (Component (SetData key value c)) = GetKeys c /\
  (forall k, Find k (DataMap (Component (SetData key value c)))
             = Find k (DataMap c)).
Proof.
  intros Hviolated.
  assert (Hrej : exists w, SetData key value c = rejected c w).
  { unfold SetData, ValidateKeyType, ValidateValueType.
    destruct Hviolated as [(S & HS & Hne) | (S & HS & Hne)]; rewrite HS.
    - rewrite bool_decide_eq_true_2 by exact Hne. eauto.
    - destruct (RestrictedKeyType c) as [R|].
      + case_bool_decide; [eauto |].
        rewrite bool_decide_eq_true_2 by exact Hne. eauto.
      + rewrite bool_decide_eq_true_2 by exact Hne. eauto. }
  destruct Hrej as [w ->]. simpl. auto.
Qed.

Lemma SetData_rejected_changes_nothing_witness :
  Component (SetData K_int V1 Restricted0) = Restricted0 /\
  Broadcasts (SetData K_int V1 Restricted0) = [] /\
  GetKeys (Component (SetData K_int V1 Restricted0)) = GetKeys Restricted0 /\
  (forall k, Find k (DataMap (Component (SetData K_int V1 Restricted0)))
             = Find k (DataMap Restricted0)).
Proof.
  apply (SetData_rejected_changes_nothing K_int V1 Restricted0).
  left. exists FSlotKey. split; [reflexivity | discriminate].
Defined.

(** The specification's scenarios: a value of another struct type is
    rejected (the keys stay empty and nothing is broadcast, one warning is
    logged); an accepted call on a fresh component broadcasts [OnKeyAdded]
    once, and the value is found afterwards. *)
Example SetData_wrong_value_type_scenario :
  GetKeys (Component (SetData K1 V_slot Restricted0)) = [] /\
  Broadcasts (SetData K1 V_slot Restricted0) = [] /\
  Warnings (SetData K1 V_slot Restricted0)
  = [ValueTypeMismatch (Some FSlotKey) FIntValue].
Proof. vm_compute. repeat split; reflexivity. Qed.

Example SetData_accepted_scenario :
  events (Broadcasts (SetData K1 V1 Restricted0)) = [OnKeyAdded K1 V1] /\
  GetData K1 V2 (Component (SetData K1 V1 Restricted0)) = (true, V1) /\
  GetData K2 V2 (Component (SetData K1 V1 Restricted0)) = (false, V2).
Proof. vm_compute. repeat split; reflexivity. Qed.

End Schema.

(** ** Sequences of calls *)

Section Sequences.

Implicit Types (m : FNeoDataMap) (key : FRecordKey) (value : FRecordDefinition).

Lemma Items_AddOrUpdate key value m :
  Items (state_of (AddOrUpdate key value m))
  = Upsert (IDCounter m) key value (Items m).
Proof. rewrite AddOrUpdate_run. reflexivity. Qed.

Lemma Items_Remove key m :
  Items (state_of (Remove key m)) = RemoveFirst key (Items m).
Proof.
  rewrite Remove_run.
  destruct (FindByPredicate _ (Items m)) eqn:Hfind; simpl; [reflexivity |].
  symmetry. by apply FindByPredicate_None_RemoveFirst.
Qed.

Lemma run_calls_snoc (cs : list Call) (c : Call) m :
  state_of (run_calls (cs ++ [c]) m)
  = state_of (run_call c (state_of (run_calls cs m))).
Proof.
  revert m. induction cs as [|c' cs IH]; intros m; simpl.
  - reflexivity.
  - cbv [bind] in *. simpl. apply IH.
Qed.

Lemma run_call_invariant (c : Call) m :
  OneEntryPerKey (Items m) -> OneEntryPerKey (Items (state_of (run_call c m))).
Proof.
  intros H. destruct c as [key value | key]; simpl.
  - rewrite Items_AddOrUpdate. by apply OneEntryPerKey_Upsert.
  - rewrite Items_Remove. by apply OneEntryPerKey_RemoveFirst.
Qed.

Lemma run_calls_invariant (cs : list Call) m :
  OneEntryPerKey (Items m) -> OneEntryPerKey (Items (state_of (run_calls cs m))).
Proof.
  induction cs as [|c cs IH] using rev_ind; intros H.
  - exact H.
  - rewrite run_calls_snoc. apply run_call_invariant. by apply IH.
Qed.

Lemma run_calls_app (cs cs' : list Call) m :
  state_of (run_calls (cs ++ cs') m)
  = state_of (run_calls cs' (state_of (run_calls cs m))).
Proof.
  revert m. induction cs as [|c cs IH]; intros m; simpl.
  - reflexivity.
  - cbv [bind] in *. simpl. apply IH.
Qed.

(** [Find] after a sequence of calls, from the calls and [Find] before. *)
Lemma Find_run_calls (cs : list Call) m key :
  OneEntryPerKey (Items m) ->
  Find key (state_of (run_calls cs m))
  = LatestValueOr (Find key m) key (rev cs).
Proof.
  intros H0. induction cs as [|c cs IH] using rev_ind.
  - reflexivity.
  - rewrite run_calls_snoc, rev_app_distr. simpl.
    pose proof (run_calls_invariant cs m H0) as Hinv.
    rewrite Find_FindFirst. destruct c as [key' value | key']; simpl.
    + rewrite Items_AddOrUpdate, FindFirst_Upsert, <- IH, Find_FindFirst.
      reflexivity.
    + rewrite Items_Remove, FindFirst_RemoveFirst by exact Hinv.
      rewrite <- IH, Find_FindFirst. reflexivity.
Qed.

Lemma LatestValueOr_twice before key (l : list Call) :
  LatestValueOr (LatestValueOr before key l) key l = LatestValueOr before key l.
Proof.
  induction l as [|c l IH]; simpl; [reflexivity |].
  destruct c as [key' value | key']; destruct (FRecordKey_eq key' key);
    try reflexivity; exact IH.
Qed.

(** C3: whatever calls of [AddOrUpdate] and [Remove] are made on an empty
    map, the map holds at most one entry per key, and [Find] returns the
    value of the latest [AddOrUpdate] of the key that no [Remove] of the key
    follows, and null when there is none. *)
Theorem calls_keep_one_entry_per_key_and_latest_value
    (owner : option ObjectPtr) (calls : list Call) :
  let m := state_of (run_calls calls (set_Owner owner FNeoDataMap_ctor)) in
  OneEntryPerKey (Items m) /\
  forall key, Find key m = LatestValue key (rev calls).
Proof.
  simpl. set (m0 := set_Owner owner FNeoDataMap_ctor).
  assert (H0 : OneEntryPerKey (Items m0)) by (intros key; simpl; lia).
  split; [by apply run_calls_invariant |].
  intros key. by rewrite Find_run_calls.
Qed.

End Sequences.

(** ** Single calls *)

Section SingleCalls.

Import Samples.

Implicit Types (m : FNeoDataMap) (key : FRecordKey) (value : FRecordDefinition).

Lemma KeyValue_DirtyItem counter value (Entry : FNeoDataEntry) :
  KeyValue (DirtyItem counter (set_Value value Entry)) = (Key Entry, value).
Proof. reflexivity. Qed.

(** C4, as the code has it: on a map with at most one entry for the key,
    [AddOrUpdate] replaces the value of the entry that holds the key, or
    appends a new entry when there is none; it broadcasts exactly one
    [OnKeyUpdated] in the first case and exactly one [OnKeyAdded] in the
    second when the map has an [Owner], and nothing when [Owner] is null;
    afterwards exactly one entry holds the key. *)
Theorem AddOrUpdate_replaces_or_inserts key value m :
  (CountKey key (Items m) <= 1)%nat ->
  let r := AddOrUpdate key value m in
  (HasEntry key (Items m) ->
     (exists i Entry,
        FindByPredicate (HasKey key) (Items m) = Some i /\
        Items m !! i = Some Entry /\
        map KeyValue (Items (state_of r))
        = <[i := (Key Entry, value)]> (map KeyValue (Items m))) /\
     events (log_of r)
     = match Owner m with Some _ => [OnKeyUpdated key value] | None => [] end) /\
  (~ HasEntry key (Items m) ->
     map KeyValue (Items (state_of r))
     = map KeyValue (Items m) ++ [(key, value)] /\
     events (log_of r)
     = match Owner m with Some _ => [OnKeyAdded key value] | None => [] end) /\
  CountKey key (Items (state_of r)) = 1%nat.
Proof.
  intros Hcount. cbv zeta. rewrite AddOrUpdate_run. unfold AddOrUpdate_event.
  cbn [state_of log_of fst snd Items]. split; [|split].
  - intros Hhas. apply HasEntry_FindByPredicate in Hhas.
    destruct (FindByPredicate (HasKey key) (Items m)) as [i|] eqn:Hfind; [|done].
    destruct (FindByPredicate_Some_Upsert (IDCounter m) key value _ _ Hfind)
      as (e & He & _ & ->).
    split; [|destruct (Owner m); reflexivity].
    exists i, e. repeat split; [exact He |].
    rewrite list_fmap_insert. reflexivity.
  - intros Hno.
    assert (Hnone : FindByPredicate (HasKey key) (Items m) = None).
    { destruct (FindByPredicate (HasKey key) (Items m)) eqn:Hfind; [|done].
      exfalso. apply Hno, HasEntry_FindByPredicate. congruence. }
    rewrite (FindByPredicate_None_Upsert _ _ _ _ Hnone), map_app, Hnone.
    split; [reflexivity | destruct (Owner m); reflexivity].
  - rewrite CountKey_Upsert, FRecordKey_eq_refl.
    destruct (CountKey key (Items m)) as [|[|n]]; lia.
Qed.

Lemma AddOrUpdate_replaces_or_inserts_witness :
  (CountKey K1 (Items Owned1) <= 1)%nat /\
  events (log_of (AddOrUpdate K1 V2 Owned1)) = [OnKeyUpdated K1 V2] /\
  CountKey K1 (Items (state_of (AddOrUpdate K1 V2 Owned1))) = 1%nat.
Proof.
  assert (Hcount : (CountKey K1 (Items Owned1) <= 1)%nat) by (vm_compute; lia).
  assert (Hhas : HasEntry K1 (Items Owned1)).
  { apply HasEntry_CountKey. vm_compute. discriminate. }
  split; [exact Hcount |].
  pose proof (AddOrUpdate_replaces_or_inserts K1 V2 Owned1 Hcount)
    as (Hfound & _ & Hone).
  split; [exact (proj2 (Hfound Hhas)) | exact Hone].
Defined.

(** C4 as stated fails on a map without an owner: the first call inserts
    the entry and the second replaces its value, and neither broadcasts. *)
Lemma AddOrUpdate_null_owner_is_silent :
  Owner FNeoDataMap_ctor = None /\
  CountKey K1 (Items FNeoDataMap_ctor) = 0%nat /\
  log_of (AddOrUpdate K1 V1 FNeoDataMap_ctor) = [] /\
  CountKey K1 (Items Map1) = 1%nat /\
  log_of (AddOrUpdate K1 V2 Map1) = [] /\
  Find K1 (state_of (AddOrUpdate K1 V2 Map1)) = Some V2.
Proof. vm_compute. repeat split; reflexivity. Qed.

(** C5, as the code has it: when an entry holds the key, [Remove] deletes
    the first such entry; when the map has an [Owner] it broadcasts exactly
    one [OnKeyRemoved] first, whose callbacks still see the entry in the
    array, and when [Owner] is null it broadcasts nothing.  When no entry
    holds the key, the call changes nothing and broadcasts nothing. *)
Theorem Remove_notifies_then_deletes key m :
  (HasEntry key (Items m) ->
     exists i Entry,
       FindByPredicate (HasKey key) (Items m) = Some i /\
       Items m !! i = Some Entry /\
       FRecordKey_eq (Key Entry) key = true /\
       Items (state_of (Remove key m)) = delete i (Items m) /\
       log_of (Remove key m)
       = match Owner m with
         | Some owner =>
             [ {| Target := owner; Event := OnKeyRemoved key; Seen := Items m |} ]
         | None => []
         end) /\
  (~ HasEntry key (Items m) -> Remove key m = (tt, m, [])).
Proof.
  rewrite Remove_run. split; intros H.
  - apply HasEntry_FindByPredicate in H.
    destruct (FindByPredicate (HasKey key) (Items m)) as [i|] eqn:Hfind; [|done].
    destruct (FindByPredicate_Some_lookup _ _ _ Hfind) as (e & He & Hk).
    exists i, e. repeat split; try assumption.
    simpl. by apply FindByPredicate_Some_RemoveFirst.
  - destruct (FindByPredicate (HasKey key) (Items m)) eqn:Hfind; [|done].
    exfalso. apply H, HasEntry_FindByPredicate. congruence.
Qed.

Lemma Remove_notifies_then_deletes_witness :
  HasEntry K1 (Items Owned1) /\
  (exists i Entry,
     FindByPredicate (HasKey K1) (Items Owned1) = Some i /\
     Items Owned1 !! i = Some Entry /\
     FRecordKey_eq (Key Entry) K1 = true /\
     Items (state_of (Remove K1 Owned1)) = delete i (Items Owned1) /\
     log_of (Remove K1 Owned1)
     = match Owner Owned1 with
       | Some owner =>
           [ {| Target := owner; Event := OnKeyRemoved K1; Seen := Items Owned1 |} ]
       | None => []
       end).
Proof.
  assert (Hhas : HasEntry K1 (Items Owned1)).
  { apply HasEntry_CountKey. vm_compute. discriminate. }
  split; [exact Hhas |].
  exact (proj1 (Remove_notifies_then_deletes K1 Owned1) Hhas).
Defined.

(** C5 as stated fails on a map without an owner: the entry is there and is
    deleted, and no [OnKeyRemoved] is broadcast before (or after). *)
Lemma Remove_null_owner_is_silent :
  Owner Map1 = None /\
  CountKey K1 (Items Map1) = 1%nat /\
  log_of (Remove K1 Map1) = [] /\
  Items (state_of (Remove K1 Map1)) = [].
Proof. vm_compute. repeat split; reflexivity. Qed.

End SingleCalls.

(** ** Repeating calls *)

Section Replay.

Import Samples.

Implicit Types (m : FNeoDataMap) (key : FRecordKey) (value : FRecordDefinition).

Lemma KeyValue_Upsert_twice counter counter' key value (l : list FNeoDataEntry) :
  map KeyValue (Upsert counter' key value (Upsert counter key value l))
  = map KeyValue (Upsert counter key value l).
Proof.
  induction l as [|x l IH]; simpl.
  - rewrite FRecordKey_eq_refl. reflexivity.
  - destruct (FRecordKey_eq (Key x) key) eqn:Hx; simpl; rewrite Hx; simpl.
    + reflexivity.
    + rewrite IH. reflexivity.
Qed.

Lemma Remove_twice key m :
  (CountKey key (Items m) <= 1)%nat ->
  Remove key (state_of (Remove key m)) = (tt, state_of (Remove key m), []).
Proof.
  intros Hcount.
  assert (Hgone : FindByPredicate (HasKey key) (Items (state_of (Remove key m)))
                  = None).
  { rewrite Items_Remove. apply FindByPredicate_CountKey.
    rewrite CountKey_RemoveFirst. lia. }
  rewrite (Remove_run key (state_of (Remove key m))), Hgone. reflexivity.
Qed.

(** C6, as the code has it: on a map with one entry per key, a second
    [AddOrUpdate] with the same key and value leaves the keys and values of
    the entries, in their order, as the first call left them; a second
    [Remove] of the same key leaves the whole map as the first left it; and
    running any sequence of calls (a delta batch) a second time leaves every
    [Find] as after the first run. *)
Theorem repeated_calls_keep_contents key value (batch : list Call) m :
  OneEntryPerKey (Items m) ->
  map KeyValue
    (Items (state_of (AddOrUpdate key value (state_of (AddOrUpdate key value m)))))
  = map KeyValue (Items (state_of (AddOrUpdate key value m))) /\
  state_of (Remove key (state_of (Remove key m))) = state_of (Remove key m) /\
  (forall k, Find k (state_of (run_calls (batch ++ batch) m))
             = Find k (state_of (run_calls batch m))).
Proof.
  intros Hone. split; [|split].
  - rewrite !Items_AddOrUpdate. apply KeyValue_Upsert_twice.
  - rewrite Remove_twice by apply Hone. reflexivity.
  - intros k. rewrite run_calls_app.
    rewrite (Find_run_calls batch (state_of (run_calls batch m)))
      by (by apply run_calls_invariant).
    rewrite (Find_run_calls batch m) by exact Hone.
    apply LatestValueOr_twice.
Qed.

Lemma repeated_calls_keep_contents_witness :
  OneEntryPerKey (Items Owned1) /\
  map KeyValue
    (Items (state_of (AddOrUpdate K1 V2 (state_of (AddOrUpdate K1 V2 Owned1)))))
  = map KeyValue (Items (state_of (AddOrUpdate K1 V2 Owned1))) /\
  state_of (Remove K1 (state_of (Remove K1 Owned1)))
  = state_of (Remove K1 Owned1) /\
  (forall k,
     Find k (state_of (run_calls
               ([CallRemove K1; CallAddOrUpdate K1 V1; CallAddOrUpdate K2 V2] ++
                [CallRemove K1; CallAddOrUpdate K1 V1; CallAddOrUpdate K2 V2])
               Owned1))
     = Find k (state_of (run_calls
                 [CallRemove K1; CallAddOrUpdate K1 V1; CallAddOrUpdate K2 V2]
                 Owned1))).
Proof.
  assert (Hone : OneEntryPerKey (Items Owned1)).
  { apply DistinctKeys_spec. vm_compute. reflexivity. }
  split; [exact Hone |].
  exact (repeated_calls_keep_contents K1 V2
           [CallRemove K1; CallAddOrUpdate K1 V1; CallAddOrUpdate K2 V2]
           Owned1 Hone).
Defined.

(** C6 as stated fails: the second [AddOrUpdate] marks the entry dirty
    again, so its [ReplicationKey] and the array's key move on; and a batch
    that removes and re-adds a key moves its entry to the end when it is
    run a second time. *)
Lemma second_AddOrUpdate_changes_entries :
  map ReplicationKey (Items (state_of (AddOrUpdate K1 V1 FNeoDataMap_ctor))) = [0] /\
  map ReplicationKey
    (Items (state_of (AddOrUpdate K1 V1 (state_of (AddOrUpdate K1 V1 FNeoDataMap_ctor)))))
  = [1] /\
  ArrayReplicationKey (state_of (AddOrUpdate K1 V1 FNeoDataMap_ctor)) = 1 /\
  ArrayReplicationKey
    (state_of (AddOrUpdate K1 V1 (state_of (AddOrUpdate K1 V1 FNeoDataMap_ctor)))) = 2 /\
  (let batch := [CallRemove K1; CallAddOrUpdate K1 V1; CallAddOrUpdate K2 V2] in
   map Key (Items (state_of (run_calls batch FNeoDataMap_ctor))) = [K1; K2] /\
   map Key (Items (state_of (run_calls (batch ++ batch) FNeoDataMap_ctor)))
   = [K2; K1]).
Proof. vm_compute. repeat split; reflexivity. Qed.

(** C7: on a map with one entry per key, [Remove] of a key followed by
    [AddOrUpdate] of the same key leaves exactly one entry for the key, and
    it holds the new value: the key is never absent. *)
Theorem Remove_then_AddOrUpdate_holds_new_value key value m :
  OneEntryPerKey (Items m) ->
  let m' := state_of (AddOrUpdate key value (state_of (Remove key m))) in
  CountKey key (Items m') = 1%nat /\
  Find key m' = Some value /\
  HasEntry key (Items m').
Proof.
  intros Hone. cbv zeta.
  assert (Hcount : CountKey key
            (Items (state_of (AddOrUpdate key value (state_of (Remove key m)))))
          = 1%nat).
  { rewrite Items_AddOrUpdate, CountKey_Upsert, FRecordKey_eq_refl, Items_Remove.
    rewrite CountKey_RemoveFirst. specialize (Hone key).
    destruct (CountKey key (Items m)) as [|[|n]]; simpl; lia. }
  split; [exact Hcount | split].
  - rewrite Find_FindFirst, Items_AddOrUpdate, FindFirst_Upsert, FRecordKey_eq_refl.
    reflexivity.
  - apply HasEntry_CountKey. lia.
Qed.

Lemma Remove_then_AddOrUpdate_holds_new_value_witness :
  OneEntryPerKey (Items Owned1) /\
  CountKey K1 (Items (state_of (AddOrUpdate K1 V2 (state_of (Remove K1 Owned1)))))
  = 1%nat /\
  Find K1 (state_of (AddOrUpdate K1 V2 (state_of (Remove K1 Owned1)))) = Some V2.
Proof.
  assert (Hone : OneEntryPerKey (Items Owned1)).
  { apply DistinctKeys_spec. vm_compute. reflexivity. }
  split; [exact Hone |].
  pose proof (Remove_then_AddOrUpdate_holds_new_value K1 V2 Owned1 Hone)
    as (Hcount & Hfind & _).
  split; [exact Hcount | exact Hfind].
Defined.

End Replay.

(** ** Reading the keys *)

Section Keys.

Import Samples.

(** C8: [GetKeys] returns the keys of the entries held at the time of the
    call, in the order of the array; the returned array is a value of its
    own: whatever [SetData] and [RemoveData] calls follow, the array the
    caller holds is still that one, while a new [GetKeys] reads the entries
    the calls left. *)
Theorem GetKeys_is_a_snapshot (calls : list Call)
    (c : UNeoReplicatedDataComponent) :
  GetKeys c = map Key (Items (DataMap c)) /\
  (forall i, GetKeys c !! i = Key <$> Items (DataMap c) !! i) /\
  fst (GetKeys_then calls c) = map Key (Items (DataMap c)) /\
  GetKeys (snd (GetKeys_then calls c))
  = map Key (Items (DataMap (api_calls calls c))).
Proof.
  split; [apply GetKeys_map | split; [|split]].
  - intros i. rewrite GetKeys_map. apply list_lookup_fmap.
  - unfold GetKeys_then. simpl. apply GetKeys_map.
  - unfold GetKeys_then. simpl. apply GetKeys_map.
Qed.

(** The snapshot is not live: an array taken before [SetData K2] does not
    show [K2], a new [GetKeys] does. *)
Example GetKeys_not_live :
  let c := Component (SetData K1 V1 Component0) in
  fst (GetKeys_then [CallAddOrUpdate K2 V2; CallRemove K1] c) = [K1] /\
  GetKeys (snd (GetKeys_then [CallAddOrUpdate K2 V2; CallRemove K1] c)) = [K2].
Proof. vm_compute. split; reflexivity. Qed.

End Keys.

(** ** Entries are told apart by their keys *)

Section EntryEquality.

Import Samples.

Implicit Types (l : list FNeoDataEntry) (key : FRecordKey).

(** Two arrays whose entries are pairwise equal under
    [FNeoDataEntry::operator==]. *)
Local Abbreviation SameEntries l1 l2 :=
  (Forall2 (fun a b : FNeoDataEntry => FNeoDataEntry_eq a b = true) l1 l2).

Lemma SameEntries_FindByPredicate key l1 l2 :
  SameEntries l1 l2 ->
  FindByPredicate (HasKey key) l1 = FindByPredicate (HasKey key) l2.
Proof.
  induction 1 as [|a b l1 l2 Hab _ IH]; simpl; [reflexivity |].
  unfold FNeoDataEntry_eq in Hab.
  rewrite (FRecordKey_eq_congr_l _ _ key Hab), IH. reflexivity.
Qed.

Lemma SameEntries_CountKey key l1 l2 :
  SameEntries l1 l2 -> CountKey key l1 = CountKey key l2.
Proof.
  induction 1 as [|a b l1 l2 Hab _ IH]; simpl; [reflexivity |].
  unfold FNeoDataEntry_eq in Hab.
  rewrite (FRecordKey_eq_congr_l _ _ key Hab), IH. reflexivity.
Qed.

Lemma SameEntries_Upsert counter1 counter2 key value1 value2 l1 l2 :
  SameEntries l1 l2 ->
  SameEntries (Upsert counter1 key value1 l1) (Upsert counter2 key value2 l2).
Proof.
  induction 1 as [|a b l1 l2 Hab Hrest IH]; simpl.
  - constructor; [|constructor]. unfold FNeoDataEntry_eq. simpl.
    apply FRecordKey_eq_refl.
  - unfold FNeoDataEntry_eq in Hab.
    rewrite (FRecordKey_eq_congr_l _ _ key Hab).
    destruct (FRecordKey_eq (Key b) key); constructor; assumption.
Qed.

Lemma SameEntries_RemoveFirst key l1 l2 :
  SameEntries l1 l2 -> SameEntries (RemoveFirst key l1) (RemoveFirst key l2).
Proof.
  induction 1 as [|a b l1 l2 Hab Hrest IH]; simpl; [constructor |].
  unfold FNeoDataEntry_eq in Hab.
  rewrite (FRecordKey_eq_congr_l _ _ key Hab).
  destruct (FRecordKey_eq (Key b) key); [assumption | constructor; assumption].
Qed.

(** C9: [FNeoDataEntry::operator==] compares the keys and never reads the
    values, so two entries with one key and different values are equal; and
    what the map does by key depends on the keys only: in two maps whose
    entries are pairwise equal under that operator, whatever their values,
    a lookup stops at the same index, a key has the same number of entries,
    [Find] succeeds in one exactly when it does in the other, and
    [AddOrUpdate] and [Remove] take the same branch and leave arrays that
    are pairwise equal again. *)
Theorem entry_equality_reads_keys_only :
  (forall a b : FNeoDataEntry,
     FNeoDataEntry_eq a b = FRecordKey_eq (Key a) (Key b)) /\
  (forall key value1 value2,
     FNeoDataEntry_eq (FNeoDataEntry_ctor key value1)
                      (FNeoDataEntry_ctor key value2) = true) /\
  (forall (a b : FNeoDataEntry) value1 value2,
     FNeoDataEntry_eq (set_Value value1 a) (set_Value value2 b)
     = FNeoDataEntry_eq a b) /\
  (forall (m1 m2 : FNeoDataMap) key value1 value2,
     SameEntries (Items m1) (Items m2) ->
     FindByPredicate (HasKey key) (Items m1)
     = FindByPredicate (HasKey key) (Items m2) /\
     CountKey key (Items m1) = CountKey key (Items m2) /\
     (is_Some (Find key m1) <-> is_Some (Find key m2)) /\
     SameEntries (Items (state_of (AddOrUpdate key value1 m1)))
                 (Items (state_of (AddOrUpdate key value2 m2))) /\
     (forall owner,
        events (log_of (AddOrUpdate key value1 (set_Owner (Some owner) m1)))
        = [AddOrUpdate_event key value1 (Items m2)]) /\
     SameEntries (Items (state_of (Remove key m1)))
                 (Items (state_of (Remove key m2)))).
Proof.
  split; [reflexivity | split; [|split; [reflexivity |]]].
  - intros key value1 value2. unfold FNeoDataEntry_eq. simpl.
    apply FRecordKey_eq_refl.
  - intros m1 m2 key value1 value2 Hsame.
    pose proof (SameEntries_FindByPredicate key _ _ Hsame) as Hfind.
    pose proof (SameEntries_CountKey key _ _ Hsame) as Hcount.
    repeat split.
    + exact Hfind.
    + exact Hcount.
    + rewrite !Find_FindFirst. intros [v Hv].
      destruct (FindFirst key (Items m2)) eqn:H2; [eauto |].
      apply FindFirst_None in H2. rewrite <- Hcount in H2.
      apply FindFirst_None in H2. congruence.
    + rewrite !Find_FindFirst. intros [v Hv].
      destruct (FindFirst key (Items m1)) eqn:H1; [eauto |].
      apply FindFirst_None in H1. rewrite Hcount in H1.
      apply FindFirst_None in H1. congruence.
    + rewrite !Items_AddOrUpdate. by apply SameEntries_Upsert.
    + intros owner. rewrite AddOrUpdate_run. unfold AddOrUpdate_event. simpl.
      rewrite Hfind. reflexivity.
    + rewrite !Items_Remove. by apply SameEntries_RemoveFirst.
Qed.

Lemma entry_equality_reads_keys_only_witness :
  FNeoDataEntry_eq (FNeoDataEntry_ctor K1 V1) (FNeoDataEntry_ctor K1_dirty V2)
  = true /\
  FindByPredicate (HasKey K1) (Items Map1)
  = FindByPredicate (HasKey K1)
      (Items (state_of (AddOrUpdate K1_dirty V2 FNeoDataMap_ctor))).
Proof.
  split; [vm_compute; reflexivity |].
  refine (proj1 (proj2 (proj2 (proj2 entry_equality_reads_keys_only))
                   Map1 (state_of (AddOrUpdate K1_dirty V2 FNeoDataMap_ctor))
                   K1 V1 V1 _)).
  constructor; [vm_compute; reflexivity | constructor].
Defined.

End EntryEquality.

(** ** The owner guard *)

Section OwnerGuard.

Implicit Types (m : FNeoDataMap) (key : FRecordKey) (value : FRecordDefinition).

(** C10: every broadcast is guarded by [if (Owner)].  On a map whose
    [Owner] is null, [AddOrUpdate] and [Remove] broadcast nothing and leave
    the array and the replication counters exactly as on the same map with an
    owner; the replication hooks of an entry broadcast nothing either. *)
Theorem null_Owner_mutes_broadcasts_only key value
    (Entry : FNeoDataEntry) (owner : ObjectPtr) m :
  let quiet := set_Owner None m in
  let loud := set_Owner (Some owner) m in
  log_of (AddOrUpdate key value quiet) = [] /\
  state_of (AddOrUpdate key value quiet)
  = set_Owner None (state_of (AddOrUpdate key value loud)) /\
  log_of (Remove key quiet) = [] /\
  state_of (Remove key quiet) = set_Owner None (state_of (Remove key loud)) /\
  PreReplicatedRemove Entry quiet = (tt, quiet, []) /\
  PostReplicatedAdd Entry quiet = (tt, quiet, []) /\
  PostReplicatedChange Entry quiet = (tt, quiet, []).
Proof.
  cbv zeta. rewrite !AddOrUpdate_run, !Remove_run. simpl.
  repeat split.
  - destruct (FindByPredicate (HasKey key) (Items m)); reflexivity.
  - destruct (FindByPredicate (HasKey key) (Items m)); reflexivity.
Qed.

End OwnerGuard.

(** * Further properties of the component and the map *)

(** ** [SetData] and its validation *)

Section Validation.

Import Samples.

Implicit Types (c : UNeoReplicatedDataComponent) (key : FRecordKey)
  (value : FRecordDefinition).

Lemma ValidateKeyType_allowed c key :
  ValidateKeyType key c = None <-> KeyAllowed c key = true.
Proof.
  unfold ValidateKeyType, KeyAllowed, TypeAllowed.
  destruct (RestrictedKeyType c) as [R|]; [|tauto].
  repeat case_bool_decide; split; congruence.
Qed.

Lemma ValidateValueType_allowed c value :
  ValidateValueType value c = None <-> ValueAllowed c value = true.
Proof.
  unfold ValidateValueType, ValueAllowed, TypeAllowed.
  destruct (RestrictedValueType c) as [R|]; [|tauto].
  repeat case_bool_decide; split; congruence.
Qed.

Lemma SetData_passes c key value :
  KeyAllowed c key && ValueAllowed c value = true ->
  SetData key value c = on_DataMap (AddOrUpdate key value) c.
Proof.
  intros [Hk Hv]%andb_true_iff. unfold SetData.
  apply ValidateKeyType_allowed in Hk. apply ValidateValueType_allowed in Hv.
  rewrite Hk, Hv. reflexivity.
Qed.

Lemma SetData_fails c key value :
  KeyAllowed c key && ValueAllowed c value = false ->
  exists w, SetData key value c = rejected c w.
Proof.
  intros H. unfold SetData.
  destruct (ValidateKeyType key c) as [w|] eqn:Hk; [eauto |].
  destruct (ValidateValueType value c) as [w|] eqn:Hv; [eauto |].
  apply ValidateKeyType_allowed in Hk. apply ValidateValueType_allowed in Hv.
  rewrite Hk, Hv in H. discriminate.
Qed.

(** X1: [SetData] logs a warning exactly when it rejects the call, and never
    more than one.  The key is tested first: a key of a type the restriction
    does not allow is reported with the type found and the type asked for,
    whatever the value is; a value is reported only when the key passed. *)
Theorem SetData_warns_about_the_first_mismatch key value c :
  (Warnings (SetData key value c) = [] <->
   KeyAllowed c key && ValueAllowed c value = true) /\
  (KeyAllowed c key = false ->
   exists R, RestrictedKeyType c = Some R /\
     SetData key value c
     = rejected c (KeyTypeMismatch (GetScriptStruct (KeyData key)) R)) /\
  (KeyAllowed c key = true -> ValueAllowed c value = false ->
   exists R, RestrictedValueType c = Some R /\
     SetData key value c
     = rejected c (ValueTypeMismatch (GetScriptStruct (Payload value)) R)).
Proof.
  split; [|split].
  - destruct (KeyAllowed c key && ValueAllowed c value) eqn:Hp.
    + rewrite (SetData_passes _ _ _ Hp). simpl. tauto.
    + destruct (SetData_fails _ _ _ Hp) as [w ->]. simpl. split; discriminate.
  - intros Hk. unfold KeyAllowed, TypeAllowed in Hk. unfold SetData, ValidateKeyType.
    destruct (RestrictedKeyType c) as [R|]; [|discriminate].
    exists R. split; [reflexivity |].
    apply bool_decide_eq_false in Hk.
    rewrite bool_decide_eq_true_2 by exact Hk. reflexivity.
  - intros Hk Hv. apply ValidateKeyType_allowed in Hk.
    unfold ValueAllowed, TypeAllowed in Hv. unfold SetData. rewrite Hk.
    unfold ValidateValueType.
    destruct (RestrictedValueType c) as [R|]; [|discriminate].
    exists R. split; [reflexivity |].
    apply bool_decide_eq_false in Hv.
    rewrite bool_decide_eq_true_2 by exact Hv. reflexivity.
Qed.

Lemma SetData_warns_about_the_first_mismatch_witness :
  KeyAllowed Restricted0 K_int = false /\
  ValueAllowed Restricted0 V_slot = false /\
  exists R, RestrictedKeyType Restricted0 = Some R /\
    SetData K_int V_slot Restricted0
    = rejected Restricted0 (KeyTypeMismatch (GetScriptStruct (KeyData K_int)) R).
Proof.
  assert (Hk : KeyAllowed Restricted0 K_int = false) by (vm_compute; reflexivity).
  split; [exact Hk | split; [vm_compute; reflexivity |]].
  exact (proj1 (proj2 (SetData_warns_about_the_first_mismatch K_int V_slot Restricted0)) Hk).
Defined.

End Validation.

(** ** Reading back what was written *)

Section ReadBack.

Import Samples.

Implicit Types (c : UNeoReplicatedDataComponent) (key : FRecordKey)
  (value OutValue : FRecordDefinition) (l : list FNeoDataEntry).

Lemma GetData_FindFirst key OutValue c :
  GetData key OutValue c =
  match FindFirst key (Items (DataMap c)) with
  | Some Found => (true, Found)
  | None => (false, OutValue)
  end.
Proof. unfold GetData. rewrite Find_FindFirst. reflexivity. Qed.

Lemma FindFirst_congr key key' l :
  FRecordKey_eq key key' = true -> FindFirst key l = FindFirst key' l.
Proof.
  intros Heq. induction l as [|x l IH]; simpl; [reflexivity |].
  rewrite (FRecordKey_eq_congr_r _ _ (Key x) Heq), IH. reflexivity.
Qed.

Lemma FindByPredicate_keys key l :
  FindByPredicate (HasKey key) l
  = FindByPredicate (fun k => FRecordKey_eq k key) (map Key l).
Proof.
  induction l as [|x l IH]; simpl; [reflexivity |].
  rewrite IH. reflexivity.
Qed.

Lemma Keys_Upsert counter key value l :
  map Key (Upsert counter key value l)
  = match FindByPredicate (HasKey key) l with
    | Some _ => map Key l
    | None => map Key l ++ [key]
    end.
Proof.
  induction l as [|x l IH]; simpl; [reflexivity |].
  destruct (FRecordKey_eq (Key x) key); simpl; [reflexivity |].
  rewrite IH. destruct (FindByPredicate _ l); reflexivity.
Qed.

Lemma Keys_RemoveFirst key l :
  map Key (RemoveFirst key l)
  = match FindByPredicate (HasKey key) l with
    | Some i => delete i (map Key l)
    | None => map Key l
    end.
Proof.
  induction l as [|x l IH]; simpl; [reflexivity |].
  destruct (FRecordKey_eq (Key x) key); simpl; [reflexivity |].
  rewrite IH. destruct (FindByPredicate _ l); reflexivity.
Qed.

Lemma GetData_SetData_passes key value key' OutValue c :
  KeyAllowed c key && ValueAllowed c value = true ->
  GetData key' OutValue (Component (SetData key value c))
  = if FRecordKey_eq key key' then (true, value) else GetData key' OutValue c.
Proof.
  intros Hp. rewrite (SetData_passes _ _ _ Hp), !GetData_FindFirst. simpl.
  rewrite Items_AddOrUpdate, FindFirst_Upsert.
  destruct (FRecordKey_eq key key'); reflexivity.
Qed.

(** X2: a [SetData] that passes validation is read back by [GetData]: for
    every key equal to the one written, [GetData] returns true with the
    value written; for every other key it answers as before the call. *)
Theorem SetData_then_GetData key value key' OutValue c :
  KeyAllowed c key && ValueAllowed c value = true ->
  GetData key' OutValue (Component (SetData key value c))
  = if FRecordKey_eq key key' then (true, value) else GetData key' OutValue c.
Proof.
  intros Hp. rewrite (SetData_passes _ _ _ Hp), !GetData_FindFirst.
  cbn [Component on_DataMap DataMap set_DataMap].
  rewrite Items_AddOrUpdate, FindFirst_Upsert.
  destruct (FRecordKey_eq key key'); reflexivity.
Qed.

Lemma SetData_then_GetData_witness :
  KeyAllowed Restricted0 K1 && ValueAllowed Restricted0 V1 = true /\
  GetData K1_dirty V2 (Component (SetData K1 V1 Restricted0)) = (true, V1).
Proof.
  assert (Hp : KeyAllowed Restricted0 K1 && ValueAllowed Restricted0 V1 = true)
    by (vm_compute; reflexivity).
  split; [exact Hp |].
  rewrite (SetData_then_GetData K1 V1 K1_dirty V2 Restricted0 Hp).
  vm_compute. reflexivity.
Defined.

(** X3: on a component whose map holds at most one entry per key, after
    [RemoveData] of a key [GetData] finds nothing for any key equal to it and
    leaves [OutValue] as the caller passed it; for every other key it
    answers as before the call. *)
Theorem RemoveData_then_GetData key key' OutValue c :
  OneEntryPerKey (Items (DataMap c)) ->
  GetData key' OutValue (Component (RemoveData key c))
  = if FRecordKey_eq key key' then (false, OutValue) else GetData key' OutValue c.
Proof.
  intros Hone. rewrite !GetData_FindFirst. unfold RemoveData. simpl.
  rewrite Items_Remove, FindFirst_RemoveFirst by exact Hone.
  destruct (FRecordKey_eq key key'); reflexivity.
Qed.

Lemma RemoveData_then_GetData_witness :
  OneEntryPerKey (Items (DataMap (Component (SetData K1 V1 Component0)))) /\
  GetData K1 V2 (Component (RemoveData K1_dirty (Component (SetData K1 V1 Component0))))
  = (false, V2).
Proof.
  assert (Hone : OneEntryPerKey
                   (Items (DataMap (Component (SetData K1 V1 Component0))))).
  { apply DistinctKeys_spec. vm_compute. reflexivity. }
  split; [exact Hone |].
  rewrite (RemoveData_then_GetData K1_dirty K1 V2 _ Hone).
  vm_compute. reflexivity.
Defined.

(** X4: [GetData] does not tell equal keys apart: two keys that are equal
    under [operator==] (the same field values, whatever their padding) get
    the same answer from every component. *)
Theorem GetData_of_equal_keys key key' OutValue c :
  FRecordKey_eq key key' = true ->
  GetData key OutValue c = GetData key' OutValue c.
Proof.
  intros Heq. rewrite !GetData_FindFirst, (FindFirst_congr _ _ _ Heq). reflexivity.
Qed.

Lemma GetData_of_equal_keys_witness :
  FRecordKey_eq K1 K1_dirty = true /\
  GetData K1_dirty V2 (Component (SetData K1 V1 Component0))
  = GetData K1 V2 (Component (SetData K1 V1 Component0)).
Proof.
  assert (Heq : FRecordKey_eq K1 K1_dirty = true) by (vm_compute; reflexivity).
  split; [exact Heq |].
  symmetry. exact (GetData_of_equal_keys K1 K1_dirty V2 _ Heq).
Defined.

(** X5: [GetData] and [GetKeys] agree: [GetData] returns true for a key
    exactly when [GetKeys] lists a key equal to it; when it returns false,
    [OutValue] is what the caller passed. *)
Theorem GetData_finds_the_listed_keys key OutValue c :
  (fst (GetData key OutValue c) = true <->
   exists k, k ∈ GetKeys c /\ FRecordKey_eq k key = true) /\
  (fst (GetData key OutValue c) = false ->
   snd (GetData key OutValue c) = OutValue).
Proof.
  rewrite GetData_FindFirst, GetKeys_map. split.
  - destruct (FindFirst key (Items (DataMap c))) as [v|] eqn:Hfind; simpl.
    + split; [intros _ | reflexivity].
      assert (Hhas : HasEntry key (Items (DataMap c))).
      { apply HasEntry_CountKey. intros Hc. apply FindFirst_None in Hc. congruence. }
      destruct Hhas as (e & He & Hk). exists (Key e). split; [|exact Hk].
      apply list_elem_of_fmap. eauto.
    + split; [discriminate |]. intros (k & Hk & Heq). exfalso.
      apply list_elem_of_fmap in Hk as (e & -> & He).
      apply FindFirst_None in Hfind.
      assert (Hhas : HasEntry key (Items (DataMap c))) by (exists e; auto).
      apply HasEntry_CountKey in Hhas. contradiction.
  - destruct (FindFirst key (Items (DataMap c))); simpl; [discriminate | reflexivity].
Qed.

Lemma GetData_finds_the_listed_keys_witness :
  fst (GetData K1_dirty V2 (Component (SetData K1 V1 Component0))) = true.
Proof.
  apply (proj1 (GetData_finds_the_listed_keys K1_dirty V2
                  (Component (SetData K1 V1 Component0)))).
  exists K1. split; [vm_compute; left | vm_compute; reflexivity].
Defined.

(** X6: what [SetData] and [RemoveData] do to the array [GetKeys] returns.
    A [SetData] that passes validation leaves the keys as they are when one
    of them equals the new key (the entry keeps its place and the key it was
    inserted with), and appends the new key otherwise; [RemoveData] deletes
    the first key equal to the one given and keeps the others in their
    order, or changes nothing when there is none. *)
Theorem GetKeys_after_a_call key value c :
  (KeyAllowed c key && ValueAllowed c value = true ->
   GetKeys (Component (SetData key value c))
   = match FindByPredicate (fun k => FRecordKey_eq k key) (GetKeys c) with
     | Some _ => GetKeys c
     | None => GetKeys c ++ [key]
     end) /\
  GetKeys (Component (RemoveData key c))
  = match FindByPredicate (fun k => FRecordKey_eq k key) (GetKeys c) with
    | Some i => delete i (GetKeys c)
    | None => GetKeys c
    end.
Proof.
  split.
  - intros Hp. rewrite (SetData_passes _ _ _ Hp), !GetKeys_map. simpl.
    rewrite Items_AddOrUpdate, Keys_Upsert, FindByPredicate_keys. reflexivity.
  - rewrite !GetKeys_map. unfold RemoveData. simpl.
    rewrite Items_Remove, Keys_RemoveFirst, FindByPredicate_keys. reflexivity.
Qed.

Lemma GetKeys_after_a_call_witness :
  KeyAllowed Component0 K1_dirty && ValueAllowed Component0 V2 = true /\
  GetKeys (Component (SetData K1_dirty V2 (Component (SetData K1 V1 Component0))))
  = [K1].
Proof.
  split; [vm_compute; reflexivity |].
  rewrite (proj1 (GetKeys_after_a_call K1_dirty V2
                    (Component (SetData K1 V1 Component0)))).
  - vm_compute. reflexivity.
  - vm_compute. reflexivity.
Defined.

End ReadBack.

(** ** A component through its life *)

Section Lifetime.

Import Samples.

Implicit Types (c : UNeoReplicatedDataComponent) (key : FRecordKey)
  (value : FRecordDefinition) (call : Call) (calls : list Call).

Lemma api_call_outcome call c : api_call call c = Component (api_outcome call c).
Proof. destruct call; reflexivity. Qed.

(** One call, as the map sees it: a call that passes runs on the map, a
    [SetData] that does not pass leaves the component alone. *)
Lemma api_outcome_run call c :
  api_outcome call c =
  if Passes c call then on_DataMap (run_call call) c
  else {| Component := c; Broadcasts := [];
          Warnings := Warnings (api_outcome call c) |}.
Proof.
  destruct call as [key value | key]; simpl; [|reflexivity].
  destruct (KeyAllowed c key && ValueAllowed c value) eqn:Hp.
  - by apply SetData_passes.
  - destruct (SetData_fails _ _ _ Hp) as [w ->]. reflexivity.
Qed.

Lemma api_call_restrictions call c :
  RestrictedKeyType (api_call call c) = RestrictedKeyType c /\
  RestrictedValueType (api_call call c) = RestrictedValueType c.
Proof.
  rewrite api_call_outcome, api_outcome_run.
  destruct (Passes c call); simpl; auto.
Qed.

Lemma Passes_api_call call' call c :
  Passes (api_call call' c) call = Passes c call.
Proof.
  destruct (api_call_restrictions call' c) as [Hk Hv].
  destruct call; simpl; [|reflexivity].
  unfold KeyAllowed, ValueAllowed. rewrite Hk, Hv. reflexivity.
Qed.

Lemma api_calls_restrictions calls c :
  RestrictedKeyType (api_calls calls c) = RestrictedKeyType c /\
  RestrictedValueType (api_calls calls c) = RestrictedValueType c.
Proof.
  revert c. induction calls as [|call calls IH]; intros c; simpl; [auto |].
  destruct (IH (api_call call c)) as [-> ->]. apply api_call_restrictions.
Qed.

(** The map after a sequence of API calls is the map after the calls that
    pass, run on the map directly. *)
Lemma api_calls_run calls c :
  DataMap (api_calls calls c)
  = state_of (run_calls (List.filter (Passes c) calls) (DataMap c)).
Proof.
  revert c. induction calls as [|call calls IH]; intros c; simpl; [reflexivity |].
  unfold api_calls in IH. rewrite IH.
  rewrite (List.filter_ext _ _ (fun x => Passes_api_call call x c)).
  rewrite api_call_outcome, api_outcome_run.
  destruct (Passes c call); simpl; [|reflexivity].
  cbv [bind]. simpl. reflexivity.
Qed.

Lemma Placed_empty This KeyType ValueType :
  OneEntryPerKey (Items (DataMap (Placed This KeyType ValueType))).
Proof. intros key. simpl. lia. Qed.

Lemma api_calls_invariant This KeyType ValueType calls :
  OneEntryPerKey (Items (DataMap (api_calls calls (Placed This KeyType ValueType)))).
Proof.
  rewrite api_calls_run. apply run_calls_invariant, Placed_empty.
Qed.

Lemma run_calls_Owner calls (m : FNeoDataMap) :
  Owner (state_of (run_calls calls m)) = Owner m.
Proof.
  induction calls as [|call calls IH] using rev_ind; [reflexivity |].
  rewrite run_calls_snoc, <- IH.
  destruct call as [key value | key]; simpl.
  - rewrite AddOrUpdate_run. reflexivity.
  - rewrite Remove_run. destruct (FindByPredicate _ _); reflexivity.
Qed.

(** X7: rejected calls leave no trace.  After any sequence of [SetData] and
    [RemoveData] calls on a freshly placed component, [GetData] returns the
    value of the latest [SetData] of the key that passed validation and that
    no [RemoveData] of the key follows; it returns false, with [OutValue]
    untouched, when there is none. *)
Theorem GetData_after_calls This KeyType ValueType calls key OutValue :
  let c0 := Placed This KeyType ValueType in
  GetData key OutValue (api_calls calls c0)
  = match LatestValue key (rev (List.filter (Passes c0) calls)) with
    | Some value => (true, value)
    | None => (false, OutValue)
    end.
Proof.
  cbv zeta. unfold GetData. rewrite api_calls_run.
  rewrite Find_run_calls by apply Placed_empty. reflexivity.
Qed.

(** X8: a component keeps what it was set up with, and reports every change
    once.  After any sequence of calls on a freshly placed component the
    map's owner is still the component and both restrictions are as they
    were set; so the next call broadcasts to the component exactly one
    [OnKeyUpdated] (the key was present) or [OnKeyAdded] (it was not) when it
    is a [SetData] that passes, exactly one [OnKeyRemoved] when it is a
    [RemoveData] of a key that is present, and nothing otherwise. *)
Theorem placed_component_reports_each_change This KeyType ValueType calls call :
  let c := api_calls calls (Placed This KeyType ValueType) in
  Owner (DataMap c) = Some This /\
  RestrictedKeyType c = KeyType /\
  RestrictedValueType c = ValueType /\
  Forall (fun b => Target b = This) (Broadcasts (api_outcome call c)) /\
  events (Broadcasts (api_outcome call c))
  = match call with
    | CallAddOrUpdate key value =>
        if Passes c call then
          [ match Find key (DataMap c) with
            | Some _ => OnKeyUpdated key value
            | None => OnKeyAdded key value
            end ]
        else []
    | CallRemove key =>
        match Find key (DataMap c) with
        | Some _ => [OnKeyRemoved key]
        | None => []
        end
    end.
Proof.
  cbv zeta. set (c := api_calls calls (Placed This KeyType ValueType)).
  assert (Hown : Owner (DataMap c) = Some This).
  { unfold c. rewrite api_calls_run, run_calls_Owner. reflexivity. }
  destruct (api_calls_restrictions calls (Placed This KeyType ValueType))
    as [Hk Hv].
  split; [exact Hown | split; [exact Hk | split; [exact Hv |]]].
  rewrite api_outcome_run.
  destruct call as [key value | key];
    rewrite Find_FindFirst, FindByPredicate_FindFirst;
    unfold on_DataMap; cbn [Passes run_call Broadcasts].
  - destruct (KeyAllowed c key && ValueAllowed c value);
      cbn [Broadcasts]; [|split; [constructor | reflexivity]].
    rewrite AddOrUpdate_run, Hown. unfold AddOrUpdate_event. cbn [log_of snd].
    destruct (FindByPredicate (HasKey key) (Items (DataMap c))) as [i|] eqn:Hf.
    + destruct (FindByPredicate_Some_lookup _ _ _ Hf) as (e & -> & _).
      simpl. split; [repeat constructor | reflexivity].
    + split; [repeat constructor | reflexivity].
  - rewrite Remove_run. unfold Removed_log. rewrite Hown.
    destruct (FindByPredicate (HasKey key) (Items (DataMap c))) as [i|] eqn:Hf.
    + destruct (FindByPredicate_Some_lookup _ _ _ Hf) as (e & -> & _).
      simpl. split; [repeat constructor | reflexivity].
    + simpl. split; [constructor | reflexivity].
Qed.

End Lifetime.

(** ** What a restricted component holds *)

Section Schema_invariant.

Import Samples.

Implicit Types (c : UNeoReplicatedDataComponent) (key : FRecordKey)
  (value : FRecordDefinition) (l : list FNeoDataEntry)
  (KeyType ValueType : option UScriptStruct).

Lemma Conforms_Upsert KeyType ValueType counter key value l :
  TypeAllowed KeyType (KeyData key) = true ->
  TypeAllowed ValueType (Payload value) = true ->
  Forall (Conforms KeyType ValueType) l ->
  Forall (Conforms KeyType ValueType) (Upsert counter key value l).
Proof.
  intros Hk Hv. induction 1 as [|x l Hx Hl IH]; simpl.
  - repeat constructor; assumption.
  - destruct (FRecordKey_eq (Key x) key); constructor; try assumption.
    destruct Hx as [Hxk _]. split; assumption.
Qed.

Lemma Conforms_RemoveFirst KeyType ValueType key l :
  Forall (Conforms KeyType ValueType) l ->
  Forall (Conforms KeyType ValueType) (RemoveFirst key l).
Proof.
  induction 1 as [|x l Hx Hl IH]; simpl; [constructor |].
  destruct (FRecordKey_eq (Key x) key); [assumption | by constructor].
Qed.

Lemma run_calls_cons call (calls : list Call) (m : FNeoDataMap) :
  state_of (run_calls (call :: calls) m)
  = state_of (run_calls calls (state_of (run_call call m))).
Proof. reflexivity. Qed.

Lemma run_calls_conform c (calls : list Call) (m : FNeoDataMap) :
  Forall (fun call => Passes c call = true) calls ->
  Forall (Conforms (RestrictedKeyType c) (RestrictedValueType c)) (Items m) ->
  Forall (Conforms (RestrictedKeyType c) (RestrictedValueType c))
         (Items (state_of (run_calls calls m))).
Proof.
  intros Hpass. revert m. induction Hpass as [|call calls Hc _ IH]; intros m Hm.
  - exact Hm.
  - rewrite run_calls_cons. apply IH.
    destruct call as [key value | key]; cbn [run_call].
    + apply andb_true_iff in Hc as [Hk Hv].
      rewrite Items_AddOrUpdate. by apply Conforms_Upsert.
    + rewrite Items_Remove. by apply Conforms_RemoveFirst.
Qed.

Lemma TypeAllowed_equal_keys KeyType key key' :
  FRecordKey_eq key key' = true ->
  TypeAllowed KeyType (KeyData key) = TypeAllowed KeyType (KeyData key').
Proof.
  intros [Hs _]%FInstancedStruct_eq_true. unfold TypeAllowed.
  destruct KeyType; [|reflexivity]. rewrite Hs. reflexivity.
Qed.

Lemma set_DataMap_same c : set_DataMap (DataMap c) c = c.
Proof. destruct c. reflexivity. Qed.

(** X9: a restricted component never holds an entry of another type.
    After any sequence of calls on a freshly placed component, every stored
    key is of the struct type the key restriction allows and every stored
    value of the type the value restriction allows.  Hence a key of a type
    that is not allowed is never found: [RemoveData] of it (which validates
    nothing) changes nothing and broadcasts nothing, and [GetData] of it
    returns false. *)
Theorem restricted_component_holds_allowed_types
    This KeyType ValueType (calls : list Call) key :
  let c := api_calls calls (Placed This KeyType ValueType) in
  Forall (Conforms KeyType ValueType) (Items (DataMap c)) /\
  (KeyAllowed c key = false ->
   RemoveData key c = {| Component := c; Broadcasts := []; Warnings := [] |} /\
   forall OutValue, GetData key OutValue c = (false, OutValue)).
Proof.
  cbv zeta. set (c0 := Placed This KeyType ValueType).
  assert (Hall : Forall (Conforms KeyType ValueType)
                        (Items (DataMap (api_calls calls c0)))).
  { rewrite api_calls_run.
    apply (run_calls_conform c0); [|constructor].
    apply Forall_forall. intros call Hin. apply list_elem_of_In in Hin.
    by apply List.filter_In in Hin as [_ ?]. }
  split; [exact Hall |].
  intros Hno.
  assert (Hnone : FindByPredicate (HasKey key)
                    (Items (DataMap (api_calls calls c0))) = None).
  { destruct (FindByPredicate _ _) as [i|] eqn:Hf; [|reflexivity]. exfalso.
    destruct (FindByPredicate_Some_lookup _ _ _ Hf) as (e & He & Hk).
    rewrite Forall_forall in Hall.
    destruct (Hall e) as [Hek _]; [by eapply list_elem_of_lookup_2 |].
    unfold KeyAllowed in Hno.
    destruct (api_calls_restrictions calls c0) as [Hr _]. rewrite Hr in Hno.
    rewrite (TypeAllowed_equal_keys _ _ _ Hk) in Hek. simpl in Hno. congruence. }
  split.
  - unfold RemoveData, on_DataMap. rewrite Remove_run, Hnone.
    cbn [state_of log_of fst snd]. rewrite set_DataMap_same. reflexivity.
  - intros OutValue. unfold GetData, Find. rewrite Hnone. reflexivity.
Qed.

Lemma restricted_component_holds_allowed_types_witness :
  KeyAllowed (api_calls [CallAddOrUpdate K1 V1; CallAddOrUpdate K_int V1]
                (Placed 1%nat (Some FSlotKey) None)) K_int = false /\
  forall OutValue,
    GetData K_int OutValue
      (api_calls [CallAddOrUpdate K1 V1; CallAddOrUpdate K_int V1]
         (Placed 1%nat (Some FSlotKey) None))
    = (false, OutValue).
Proof.
  assert (Hno : KeyAllowed
                  (api_calls [CallAddOrUpdate K1 V1; CallAddOrUpdate K_int V1]
                     (Placed 1%nat (Some FSlotKey) None)) K_int = false)
    by (vm_compute; reflexivity).
  split; [exact Hno |].
  exact (proj2 (proj2 (restricted_component_holds_allowed_types
                         1%nat (Some FSlotKey) None
                         [CallAddOrUpdate K1 V1; CallAddOrUpdate K_int V1] K_int)
                  Hno)).
Defined.

Lemma CountKey_two_entries key l (i j : nat) (a b : FNeoDataEntry) :
  (i < j)%nat -> l !! i = Some a -> l !! j = Some b ->
  FRecordKey_eq (Key a) key = true -> FRecordKey_eq (Key b) key = true ->
  (2 <= CountKey key l)%nat.
Proof.
  revert i j. induction l as [|x l IH]; intros i j Hij Hi Hj Ha Hb; [done |].
  destruct j as [|j]; [lia |]. simpl in Hj. destruct i as [|i]; simpl in *.
  - injection Hi as ->. rewrite Ha.
    assert (CountKey key l <> 0%nat).
    { apply HasEntry_CountKey. exists b. split; [by eapply list_elem_of_lookup_2 | exact Hb]. }
    lia.
  - specialize (IH i j ltac:(lia) Hi Hj Ha Hb).
    destruct (FRecordKey_eq (Key x) key); lia.
Qed.

(** X10: [GetKeys] never lists two equal keys.  After any sequence of calls
    on a freshly placed component, rejected ones among them, two places of
    the returned array hold keys that are equal under [operator==] only when
    they are the same place. *)
Theorem GetKeys_lists_each_key_once This KeyType ValueType (calls : list Call) :
  let c := api_calls calls (Placed This KeyType ValueType) in
  forall (i j : nat) ki kj,
    GetKeys c !! i = Some ki -> GetKeys c !! j = Some kj ->
    FRecordKey_eq ki kj = true -> i = j.
Proof.
  cbv zeta. intros i j ki kj Hi Hj Heq.
  pose proof (api_calls_invariant This KeyType ValueType calls kj) as Hone.
  rewrite GetKeys_map, list_lookup_fmap in Hi, Hj.
  destruct (Items _ !! i) as [a|] eqn:Ha; [|discriminate].
  destruct (Items _ !! j) as [b|] eqn:Hb; [|discriminate].
  injection Hi as <-. injection Hj as <-.
  destruct (Nat.lt_trichotomy i j) as [Hlt | [-> | Hgt]]; [|reflexivity|].
  - pose proof (CountKey_two_entries _ _ _ _ _ _ Hlt Ha Hb Heq
                  (FRecordKey_eq_refl (Key b))). lia.
  - pose proof (CountKey_two_entries _ _ _ _ _ _ Hgt Hb Ha
                  (FRecordKey_eq_refl (Key b)) Heq). lia.
Qed.

End Schema_invariant.

Section Schema_invariant_witness.

Import Samples.

Lemma GetKeys_lists_each_key_once_witness :
  GetKeys (api_calls [CallAddOrUpdate K1 V1; CallAddOrUpdate K2 V2;
                      CallAddOrUpdate K1_dirty V2]
             (Placed 1%nat None None)) !! 0%nat = Some K1 /\
  FRecordKey_eq K1 K1 = true /\
  0%nat = 0%nat.
Proof.
  assert (H0 : GetKeys (api_calls [CallAddOrUpdate K1 V1; CallAddOrUpdate K2 V2;
                                   CallAddOrUpdate K1_dirty V2]
                          (Placed 1%nat None None)) !! 0%nat = Some K1)
    by (vm_compute; reflexivity).
  assert (Heq : FRecordKey_eq K1 K1 = true) by (vm_compute; reflexivity).
  split; [exact H0 | split; [exact Heq |]].
  exact (GetKeys_lists_each_key_once 1%nat None None _ 0%nat 0%nat K1 K1 H0 H0 Heq).
Defined.

End Schema_invariant_witness.

(** ** How calls compose *)

Section Composition.

Import Samples.

Implicit Types (m : FNeoDataMap) (key : FRecordKey) (value : FRecordDefinition).

(** X11: calls on different keys commute as far as lookups go.  On a map
    with at most one entry per key, two calls ([AddOrUpdate] or [Remove])
    whose keys are not equal leave the same [Find] result for every key in
    either order (the order of the entries in the array may differ). *)
Theorem calls_on_different_keys_commute (first second : Call) m :
  OneEntryPerKey (Items m) ->
  FRecordKey_eq (CallKey first) (CallKey second) = false ->
  forall key,
    Find key (state_of (run_calls [first; second] m))
    = Find key (state_of (run_calls [second; first] m)).
Proof.
  intros Hone Hne key. rewrite !Find_run_calls by exact Hone. simpl.
  assert (Hboth : FRecordKey_eq (CallKey first) key = true ->
                  FRecordKey_eq (CallKey second) key = true -> False).
  { intros H1 H2. apply FRecordKey_eq_sym_true in H2.
    rewrite (FRecordKey_eq_trans _ _ _ H1 H2) in Hne. discriminate. }
  destruct first as [k1 v1 | k1], second as [k2 v2 | k2]; simpl in *;
    destruct (FRecordKey_eq k1 key), (FRecordKey_eq k2 key);
    try reflexivity; exfalso; auto.
Qed.

Lemma calls_on_different_keys_commute_witness :
  OneEntryPerKey (Items Owned1) /\
  FRecordKey_eq (CallKey (CallRemove K1)) (CallKey (CallAddOrUpdate K2 V2)) = false /\
  forall key,
    Find key (state_of (run_calls [CallRemove K1; CallAddOrUpdate K2 V2] Owned1))
    = Find key (state_of (run_calls [CallAddOrUpdate K2 V2; CallRemove K1] Owned1)).
Proof.
  assert (Hone : OneEntryPerKey (Items Owned1)).
  { apply DistinctKeys_spec. vm_compute. reflexivity. }
  assert (Hne : FRecordKey_eq (CallKey (CallRemove K1))
                              (CallKey (CallAddOrUpdate K2 V2)) = false)
    by (vm_compute; reflexivity).
  split; [exact Hone | split; [exact Hne |]].
  exact (calls_on_different_keys_commute (CallRemove K1) (CallAddOrUpdate K2 V2)
           Owned1 Hone Hne).
Defined.

Lemma IncrementArrayReplicationKey_moves (k : Z) :
  IncrementArrayReplicationKey k <> k /\
  IncrementArrayReplicationKey k <> INDEX_NONE.
Proof.
  unfold IncrementArrayReplicationKey, int32_incr, INDEX_NONE. cbv zeta.
  repeat match goal with
         | |- context [?a =? ?b] => destruct (Z.eqb_spec a b)
         end; lia.
Qed.

(** X12: every [AddOrUpdate] marks the map dirty, a [Remove] only when it
    removed something.  [AddOrUpdate] does not compare the new value with the
    stored one: the array's replication key moves on at every call, also
    when the same value is written again, and so does the [ReplicationKey]
    of the entry written.  [Remove] moves the array's key when an entry held
    the key and leaves the whole map as it was when none did.  No call
    leaves the array's key at [INDEX_NONE]. *)
Theorem calls_mark_the_map_dirty key value m :
  ArrayReplicationKey (state_of (AddOrUpdate key value m)) <> ArrayReplicationKey m /\
  ArrayReplicationKey (state_of (AddOrUpdate key value m)) <> INDEX_NONE /\
  (forall i Entry,
     FindByPredicate (HasKey key) (Items m) = Some i ->
     Items m !! i = Some Entry ->
     exists Entry',
       Items (state_of (AddOrUpdate key value m)) !! i = Some Entry' /\
       ReplicationKey Entry' <> ReplicationKey Entry) /\
  (HasEntry key (Items m) ->
   ArrayReplicationKey (state_of (Remove key m)) <> ArrayReplicationKey m /\
   ArrayReplicationKey (state_of (Remove key m)) <> INDEX_NONE) /\
  (~ HasEntry key (Items m) -> state_of (Remove key m) = m).
Proof.
  rewrite AddOrUpdate_run, Remove_run. cbn [state_of fst snd ArrayReplicationKey Items].
  split; [apply IncrementArrayReplicationKey_moves |].
  split; [apply IncrementArrayReplicationKey_moves |].
  split; [|split].
  - intros i Entry Hf He.
    destruct (FindByPredicate_Some_Upsert (IDCounter m) key value _ _ Hf)
      as (e & He' & _ & ->).
    assert (e = Entry) as -> by congruence.
    eexists. split.
    + apply list_lookup_insert_eq. by eapply lookup_lt_Some.
    + simpl. unfold int32_incr.
      destruct (Z.eqb_spec (ReplicationKey Entry) 2147483647); lia.
  - intros Hhas. apply HasEntry_FindByPredicate in Hhas.
    destruct (FindByPredicate (HasKey key) (Items m)); [|done].
    simpl. apply IncrementArrayReplicationKey_moves.
  - intros Hno.
    destruct (FindByPredicate (HasKey key) (Items m)) eqn:Hf; [|reflexivity].
    exfalso. apply Hno, HasEntry_FindByPredicate. congruence.
Qed.

Lemma calls_mark_the_map_dirty_witness :
  HasEntry K1 (Items Owned1) /\
  ArrayReplicationKey (state_of (Remove K1 Owned1)) <> ArrayReplicationKey Owned1.
Proof.
  assert (Hhas : HasEntry K1 (Items Owned1)).
  { apply HasEntry_CountKey. vm_compute. discriminate. }
  split; [exact Hhas |].
  exact (proj1 (proj1 (proj2 (proj2 (proj2
           (calls_mark_the_map_dirty K1 V1 Owned1)))) Hhas)).
Defined.

(** X13: [AddOrUpdate] touches one entry only.  When an entry holds the
    key, the array keeps its length and every other entry stays exactly as
    it was, replication ids included; the entry written keeps its key and its
    [ReplicationID].  When no entry holds the key, the array is the old one
    with one new entry at its end, holding the key and the value given. *)
Theorem AddOrUpdate_leaves_the_other_entries key value m :
  match FindByPredicate (HasKey key) (Items m) with
  | Some i =>
      length (Items (state_of (AddOrUpdate key value m))) = length (Items m) /\
      (forall j, j <> i ->
         Items (state_of (AddOrUpdate key value m)) !! j = Items m !! j) /\
      (forall Entry, Items m !! i = Some Entry ->
         ReplicationID Entry <> INDEX_NONE ->
         exists Entry',
           Items (state_of (AddOrUpdate key value m)) !! i = Some Entry' /\
           Key Entry' = Key Entry /\ Value Entry' = value /\
           ReplicationID Entry' = ReplicationID Entry)
  | None =>
      exists Entry',
        Items (state_of (AddOrUpdate key value m)) = Items m ++ [Entry'] /\
        Key Entry' = key /\ Value Entry' = value
  end.
Proof.
  rewrite AddOrUpdate_run. cbn [state_of fst snd Items].
  destruct (FindByPredicate (HasKey key) (Items m)) as [i|] eqn:Hf.
  - destruct (FindByPredicate_Some_Upsert (IDCounter m) key value _ _ Hf)
      as (e & He & _ & ->).
    split; [apply length_insert | split].
    + intros j Hj. by apply list_lookup_insert_ne.
    + intros Entry HE Hid. assert (e = Entry) as -> by congruence.
      eexists. split; [apply list_lookup_insert_eq; by eapply lookup_lt_Some |].
      simpl. rewrite bool_decide_eq_false_2 by exact Hid. auto.
  - rewrite (FindByPredicate_None_Upsert _ _ _ _ Hf). eexists. split; [reflexivity |].
    split; reflexivity.
Qed.

Lemma AddOrUpdate_leaves_the_other_entries_witness :
  length (Items (state_of (AddOrUpdate K1_dirty V2 Owned1))) = length (Items Owned1) /\
  map Key (Items (state_of (AddOrUpdate K1_dirty V2 Owned1))) = [K1].
Proof.
  pose proof (AddOrUpdate_leaves_the_other_entries K1_dirty V2 Owned1) as H.
  change (FindByPredicate (HasKey K1_dirty) (Items Owned1)) with (Some 0%nat) in H.
  split; [exact (proj1 H) | vm_compute; reflexivity].
Defined.

End Composition.

(** ** Keys without a struct *)

Section InvalidKeys.

Import Samples.

(** X14: keys without a struct are one key.  A key whose instanced struct
    is empty hashes to 0 and is equal to exactly the keys that are empty
    too; keys that are equal are always of the same struct type.  [SetData]
    takes such a key when no key restriction is set and rejects it under any
    key restriction. *)
Theorem empty_keys_are_one_key :
  IsValid (KeyData FRecordKey_ctor) = false /\
  (forall a, IsValid (KeyData a) = false -> GetTypeHash a = 0) /\
  (forall a b, IsValid (KeyData a) = false ->
     (FRecordKey_eq a b = true <-> IsValid (KeyData b) = false)) /\
  (forall a b, FRecordKey_eq a b = true ->
     GetScriptStruct (KeyData a) = GetScriptStruct (KeyData b)) /\
  (forall c a, IsValid (KeyData a) = false ->
     KeyAllowed c a = match RestrictedKeyType c with
                      | Some _ => false
                      | None => true
                      end).
Proof.
  split; [reflexivity | split; [|split; [|split]]].
  - intros a Ha. unfold GetTypeHash. rewrite Ha. reflexivity.
  - intros a b Ha. unfold FRecordKey_eq. rewrite FInstancedStruct_eq_true.
    unfold IsValid, GetScriptStruct in *.
    destruct (ScriptStruct (KeyData a)); [discriminate |].
    destruct (ScriptStruct (KeyData b)); split; try tauto; try discriminate.
    intros [? _]. discriminate.
  - intros a b [Hs _]%FInstancedStruct_eq_true. exact Hs.
  - intros c a Ha. unfold KeyAllowed, TypeAllowed, IsValid, GetScriptStruct in *.
    destruct (RestrictedKeyType c); [|reflexivity].
    destruct (ScriptStruct (KeyData a)); [discriminate |].
    apply bool_decide_eq_false_2. discriminate.
Qed.

Lemma empty_keys_are_one_key_witness :
  IsValid (KeyData FRecordKey_ctor) = false /\
  GetTypeHash FRecordKey_ctor = 0 /\
  KeyAllowed Restricted0 FRecordKey_ctor = false.
Proof.
  assert (H : IsValid (KeyData FRecordKey_ctor) = false) by reflexivity.
  split; [exact H | split].
  - exact (proj1 (proj2 empty_keys_are_one_key) FRecordKey_ctor H).
  - exact (proj2 (proj2 (proj2 (proj2 empty_keys_are_one_key)))
             Restricted0 FRecordKey_ctor H).
Defined.

End InvalidKeys.

(** ** The String + Int pair *)

Section StringIntPair.

Import TypedSamples.

(** X15: unlike the hash of [FRecordKey], the hash of
    [FNeoDataDefinition_SI] goes with its equality: whenever the engine's
    string hash gives equal strings (under [FString]'s [==]) equal hashes,
    two pairs that [operator==] calls equal have the same [GetTypeHash]. *)
Theorem GetTypeHash_SI_respects_equality (E : EngineHashing)
    (a b : FNeoDataDefinition_SI) :
  (forall s t, FString_eq E s t = true -> FString_hash E s = FString_hash E t) ->
  FNeoDataDefinition_SI_eq E a b = true ->
  GetTypeHash_SI E a = GetTypeHash_SI E b.
Proof.
  intros Hstr [Hs Hi]%andb_true_iff. apply Z.eqb_eq in Hi.
  unfold GetTypeHash_SI. rewrite (Hstr _ _ Hs), Hi. reflexivity.
Qed.

Lemma SampleHashing_strings s t :
  FString_eq SampleHashing s t = true ->
  FString_hash SampleHashing s = FString_hash SampleHashing t.
Proof. simpl. intros H%String.eqb_eq. rewrite H. reflexivity. Qed.

Lemma GetTypeHash_SI_respects_equality_witness :
  FNeoDataDefinition_SI_eq SampleHashing
    {| StringValue := "Gold"; IntValue := 7 |}
    {| StringValue := "GOLD"; IntValue := 7 |} = true /\
  GetTypeHash_SI SampleHashing {| StringValue := "Gold"; IntValue := 7 |}
  = GetTypeHash_SI SampleHashing {| StringValue := "GOLD"; IntValue := 7 |}.
Proof.
  assert (Heq : FNeoDataDefinition_SI_eq SampleHashing
                  {| StringValue := "Gold"; IntValue := 7 |}
                  {| StringValue := "GOLD"; IntValue := 7 |} = true)
    by (vm_compute; reflexivity).
  split; [exact Heq |].
  exact (GetTypeHash_SI_respects_equality SampleHashing _ _
           SampleHashing_strings Heq).
Defined.

End StringIntPair.

(** ** The typed API *)

Section TypedAPI.

Import TypedSamples.

Context {KeyT ValueT OtherT : Type}.
Context `{KeyStruct : StaticStructProvider KeyT}.
Context `{ValueStruct : StaticStructProvider ValueT}.
Context `{OtherStruct : StaticStructProvider OtherT}.

Implicit Types (c : UNeoReplicatedDataComponent).

Lemma GetPtr_Make (Struct : ValueT) :
  GetPtr (T := ValueT) (Make Struct) = Some (FromMemory (ToMemory Struct)).
Proof. unfold GetPtr, Make. simpl. rewrite bool_decide_eq_true_2; reflexivity. Qed.


(** X16: what [SetTypedData] writes, [GetTypedData] reads back.  When the
    component's restrictions allow the key's and the value's struct types and
    the value survives the copy into an instanced struct and back,
    [GetTypedData] with the same key returns true and the value written. *)
Theorem SetTypedData_then_GetTypedData (InKey : KeyT) (InValue OutValue : ValueT) c :
  KeyAllowed c {| KeyData := Make InKey |}
  && ValueAllowed c {| Payload := Make InValue |} = true ->
  FromMemory (ToMemory InValue) = InValue ->
  GetTypedData InKey OutValue (Component (SetTypedData InKey InValue c))
  = (true, InValue).
Proof.
  intros Hp Hcopy. unfold GetTypedData, SetTypedData. cbv zeta.
  rewrite (GetData_SetData_passes _ _ _ _ _ Hp), FRecordKey_eq_refl.
  cbn [Payload]. rewrite GetPtr_Make, Hcopy. reflexivity.
Qed.


End TypedAPI.

Section TypedAPI_witnesses.

Import Samples TypedSamples.

Lemma SetTypedData_then_GetTypedData_witness :
  GetTypedData {| Code := x07 |} {| Lo := x00; Hi := x00 |}
    (Component (SetTypedData {| Code := x07 |} {| Lo := x01; Hi := x02 |}
                  Component0))
  = (true, {| Lo := x01; Hi := x02 |}).
Proof.
  apply (SetTypedData_then_GetTypedData (KeyT := FByteKey) (ValueT := FPairValue)).
  - vm_compute. reflexivity.
  - reflexivity.
Defined.


End TypedAPI_witnesses.

(** ** The replication hooks next to the local calls *)

Section Hooks.

Import Samples.

Implicit Types (m r : FNeoDataMap) (key : FRecordKey) (value : FRecordDefinition).

Lemma hook_run (call : ObjectPtr -> Exec unit) r owner :
  Owner r = Some owner -> IfOwner call r = call owner r.
Proof.
  intros Hown. cbv [IfOwner bind get result_of state_of log_of fst snd].
  rewrite Hown. destruct (call owner r) as [[[] r'] log]. reflexivity.
Qed.

(** X18: the hooks a replica runs report the entry as it is stored, and
    change nothing.  On a map with an owner, each hook leaves the map as it
    is and broadcasts one notification with the entry's own key and value.
    For the entry [AddOrUpdate] appended these are the key and value of the
    local [OnKeyAdded]; for an entry it updated, or one [Remove] deleted, the
    local notification carries the caller's key and the hook's the stored
    key, which are equal under [operator==] and need not be identical. *)
Theorem hooks_report_the_stored_entry key value m r owner owner' :
  Owner m = Some owner -> Owner r = Some owner' ->
  (forall Entry,
     state_of (PostReplicatedAdd Entry r) = r /\
     state_of (PostReplicatedChange Entry r) = r /\
     state_of (PreReplicatedRemove Entry r) = r /\
     events (log_of (PostReplicatedAdd Entry r))
     = [OnKeyAdded (Key Entry) (Value Entry)] /\
     events (log_of (PostReplicatedChange Entry r))
     = [OnKeyUpdated (Key Entry) (Value Entry)] /\
     events (log_of (PreReplicatedRemove Entry r)) = [OnKeyRemoved (Key Entry)]) /\
  match FindByPredicate (HasKey key) (Items m) with
  | None =>
      exists Entry,
        Items (state_of (AddOrUpdate key value m)) = Items m ++ [Entry] /\
        events (log_of (PostReplicatedAdd Entry r))
        = events (log_of (AddOrUpdate key value m))
  | Some i =>
      exists Old New,
        Items m !! i = Some Old /\
        Items (state_of (AddOrUpdate key value m)) !! i = Some New /\
        FRecordKey_eq (Key New) key = true /\
        events (log_of (AddOrUpdate key value m)) = [OnKeyUpdated key value] /\
        events (log_of (PostReplicatedChange New r))
        = [OnKeyUpdated (Key New) value] /\
        events (log_of (Remove key m)) = [OnKeyRemoved key] /\
        events (log_of (PreReplicatedRemove Old r)) = [OnKeyRemoved (Key Old)]
  end.
Proof.
  intros Hm Hr. split.
  - intros Entry. unfold PostReplicatedAdd, PostReplicatedChange, PreReplicatedRemove.
    rewrite !(hook_run _ r owner' Hr). repeat split; reflexivity.
  - unfold PostReplicatedAdd, PostReplicatedChange, PreReplicatedRemove.
    rewrite AddOrUpdate_run, Remove_run, Hm. unfold AddOrUpdate_event, Removed_log.
    rewrite Hm. cbn [state_of log_of fst snd Items].
    destruct (FindByPredicate (HasKey key) (Items m)) as [i|] eqn:Hf.
    + destruct (FindByPredicate_Some_Upsert (IDCounter m) key value _ _ Hf)
        as (e & He & Hk & ->).
      exists e, (DirtyItem (IDCounter m) (set_Value value e)).
      rewrite !(hook_run _ r owner' Hr).
      repeat split; try reflexivity; try assumption.
      apply list_lookup_insert_eq. by eapply lookup_lt_Some.
    + rewrite (FindByPredicate_None_Upsert _ _ _ _ Hf).
      eexists. split; [reflexivity |].
      rewrite (hook_run _ r owner' Hr). reflexivity.
Qed.

Lemma hooks_report_the_stored_entry_witness :
  Owner Owned1 = Some 1%nat /\
  exists Old New,
    Items Owned1 !! 0%nat = Some Old /\
    Items (state_of (AddOrUpdate K1_dirty V2 Owned1)) !! 0%nat = Some New /\
    FRecordKey_eq (Key New) K1_dirty = true /\
    events (log_of (AddOrUpdate K1_dirty V2 Owned1)) = [OnKeyUpdated K1_dirty V2] /\
    events (log_of (PostReplicatedChange New Owned1)) = [OnKeyUpdated (Key New) V2] /\
    events (log_of (Remove K1_dirty Owned1)) = [OnKeyRemoved K1_dirty] /\
    events (log_of (PreReplicatedRemove Old Owned1)) = [OnKeyRemoved (Key Old)].
Proof.
  assert (Hown : Owner Owned1 = Some 1%nat) by reflexivity.
  split; [exact Hown |].
  pose proof (proj2 (hooks_report_the_stored_entry K1_dirty V2 Owned1 Owned1
                       1%nat 1%nat Hown Hown)) as H.
  change (FindByPredicate (HasKey K1_dirty) (Items Owned1)) with (Some 0%nat) in H.
  exact H.
Defined.

End Hooks.
